(** * Livestock project filter: extraction and keyword matching

    A shallow embedding of [process_local_pdfs.py]: the text normaliser
    and keyword matcher of [LivestockProjectFilter], the three-strategy
    extractor [parse_pdf_to_dataframe], and the gate of
    [process_single_pdf] in front of it.

    Python strings are sequences of Unicode code points; they are modelled
    as lists of code points.  What CPython reads from the Unicode
    character database for code points outside ASCII is a parameter
    ([unicode_tables]); on ASCII every function below computes. *)

From Stdlib Require Import String Ascii DecimalString.
From Stdlib Require Import List NArith Bool Arith Lia.
Import ListNotations.

Local Open Scope N_scope.
Local Open Scope list_scope.

(** ** Strings *)

Definition codepoint := N.
Definition pystr := list codepoint.

(** An ASCII literal as a Python string. *)
Definition u (s : string) : pystr := map N_of_ascii (list_ascii_of_string s).

Definition pystr_eqb (a b : pystr) : bool :=
  if list_eq_dec N.eq_dec a b then true else false.

(** [str.isspace] on one code point ([Py_UNICODE_ISSPACE]); the same set
    drives [str.strip], [str.split()] and the regex class [\s]. *)
Definition isspace (c : codepoint) : bool :=
  ((9 <=? c) && (c <=? 13)) || ((28 <=? c) && (c <=? 32))
  || (c =? 133) || (c =? 160) || (c =? 5760)
  || ((8192 <=? c) && (c <=? 8202))
  || (c =? 8232) || (c =? 8233) || (c =? 8239) || (c =? 8287) || (c =? 12288).

Definition SPACE : codepoint := 32.
Definition NEWLINE : codepoint := 10.
Definition COLON : codepoint := 58.
Definition PERIOD : codepoint := 46.

(** [s.lstrip()], [s.rstrip()], [s.strip()]. *)
Fixpoint lstrip (s : pystr) : pystr :=
  match s with
  | [] => []
  | c :: s' => if isspace c then lstrip s' else s
  end.

Fixpoint rstrip (s : pystr) : pystr :=
  match s with
  | [] => []
  | c :: s' =>
      match rstrip s' with
      | [] => if isspace c then [] else [c]
      | r => c :: r
      end
  end.

Definition strip (s : pystr) : pystr := rstrip (lstrip s).

(** A Python value used as a condition: a string is true when non-empty. *)
Definition truthy (s : pystr) : bool :=
  match s with [] => false | _ => true end.

(** [s.split(sep)] for a one-character separator: always at least one field. *)
Fixpoint split_on (sep : codepoint) (s : pystr) : list pystr :=
  match s with
  | [] => [[]]
  | c :: s' =>
      if c =? sep then [] :: split_on sep s'
      else match split_on sep s' with
           | [] => [[c]]
           | f :: fs => (c :: f) :: fs
           end
  end.

(** [s.startswith(p)] and [p in s]. *)
Fixpoint startswith (s p : pystr) : bool :=
  match p, s with
  | [], _ => true
  | _ :: _, [] => false
  | a :: p', b :: s' => (a =? b) && startswith s' p'
  end.

Fixpoint contains (p s : pystr) : bool :=
  startswith s p ||
  match s with
  | [] => false
  | _ :: s' => contains p s'
  end.

(** [s.split(sep, 1)[1]]: what follows the first separator. *)
Fixpoint after_first (sep : codepoint) (s : pystr) : pystr :=
  match s with
  | [] => []
  | c :: s' => if c =? sep then s' else after_first sep s'
  end.

(** [sep.join(parts)]. *)
Fixpoint join (sep : pystr) (parts : list pystr) : pystr :=
  match parts with
  | [] => []
  | [p] => p
  | p :: ps => p ++ sep ++ join sep ps
  end.

(** [s.replace(old, new)] for one-character [old] and [new]. *)
Definition replace (old new : codepoint) (s : pystr) : pystr :=
  map (fun c => if c =? old then new else c) s.

(** [re.sub(r'\s+', ' ', s)]: [in_run] records that the previous character
    belonged to the whitespace run already replaced. *)
Fixpoint sub_ws (in_run : bool) (s : pystr) : pystr :=
  match s with
  | [] => []
  | c :: s' =>
      if isspace c
      then if in_run then sub_ws true s' else SPACE :: sub_ws true s'
      else c :: sub_ws false s'
  end.

(** [s.split()]: fields separated by runs of whitespace, none empty. *)
Fixpoint split_ws_aux (cur : pystr) (s : pystr) : list pystr :=
  match s with
  | [] => match cur with [] => [] | _ => [rev cur] end
  | c :: s' =>
      if isspace c
      then match cur with
           | [] => split_ws_aux [] s'
           | _ => rev cur :: split_ws_aux [] s'
           end
      else split_ws_aux (c :: cur) s'
  end.

Definition split_ws (s : pystr) : list pystr := split_ws_aux [] s.

(** [s.split(None, 1)]: the first field, then the rest with the whitespace
    between them removed (the rest keeps its own trailing whitespace). *)
Fixpoint take_field (s : pystr) : pystr * pystr :=
  match s with
  | [] => ([], [])
  | c :: s' =>
      if isspace c then ([], s)
      else let '(f, r) := take_field s' in (c :: f, r)
  end.

Definition split_ws_1 (s : pystr) : list pystr :=
  match lstrip s with
  | [] => []
  | s0 =>
      let '(f, r) := take_field s0 in
      match lstrip r with
      | [] => [f]
      | r' => [f; r']
      end
  end.

(** Decimal rendering of a number inside an f-string. *)
Definition str_of_nat (n : nat) : pystr :=
  u (NilZero.string_of_uint (Nat.to_uint n)).

(** ** ASCII behaviour and the Unicode tables *)

Definition is_ascii (c : codepoint) : bool := c <? 128.

Definition ascii_lower (c : codepoint) : codepoint :=
  if (65 <=? c) && (c <=? 90) then c + 32 else c.

Definition ascii_isword (c : codepoint) : bool :=
  ((48 <=? c) && (c <=? 57)) || ((65 <=? c) && (c <=? 90))
  || ((97 <=? c) && (c <=? 122)) || (c =? 95).

(** What CPython looks up in the Unicode character database for a code
    point outside ASCII. *)
Record unicode_tables : Type := {
  (** full compatibility decomposition of a code point (NFKD mapping) *)
  decomposition : codepoint -> pystr;
  (** canonical combining class *)
  combining : codepoint -> N;
  (** lower-casing of one code point, given what precedes it (nearest
      first) and what follows it *)
  tolower_full : pystr -> codepoint -> pystr -> pystr;
  (** [str.isalnum] on one code point *)
  isalnum : codepoint -> bool;
  (** the equivalence [re.IGNORECASE] applies to two code points *)
  ignorecase_eq : codepoint -> codepoint -> bool
}.

(** Tables that never leave ASCII's behaviour: enough for ASCII text. *)
Definition plain_tables : unicode_tables := {|
  decomposition := fun c => [c];
  combining := fun _ => 0;
  tolower_full := fun _ c _ => [c];
  isalnum := fun _ => false;
  ignorecase_eq := N.eqb
|}.

Section Unicode.

Variable U : unicode_tables.

Definition decomp (c : codepoint) : pystr :=
  if is_ascii c then [c] else decomposition U c.

Definition ccc (c : codepoint) : N :=
  if is_ascii c then 0 else combining U c.

(** [\w] of a [str] pattern. *)
Definition isword (c : codepoint) : bool :=
  if is_ascii c then ascii_isword c else isalnum U c.

(** Two code points compared under [re.IGNORECASE]. *)
Definition ci_eq (a b : codepoint) : bool :=
  if is_ascii a && is_ascii b then ascii_lower a =? ascii_lower b
  else ignorecase_eq U a b.

(** [s.lower()]. *)
Fixpoint lower_from (before : pystr) (s : pystr) : pystr :=
  match s with
  | [] => []
  | c :: s' =>
      (if is_ascii c then [ascii_lower c] else tolower_full U before c s')
        ++ lower_from (c :: before) s'
  end.

Definition lower (s : pystr) : pystr := lower_from [] s.

(** *** NFKD *)

(** Canonical ordering: inside every run of code points of non-zero
    combining class, a stable sort by combining class. *)
Fixpoint reorder_insert (c : codepoint) (l : pystr) : pystr :=
  match l with
  | [] => [c]
  | d :: l' =>
      if (0 <? ccc d) && (ccc d <? ccc c)
      then d :: reorder_insert c l'
      else c :: l
  end.

Fixpoint canonical_order (s : pystr) : pystr :=
  match s with
  | [] => []
  | c :: s' => reorder_insert c (canonical_order s')
  end.

(** [unicodedata.normalize('NFKD', s)]. *)
Definition nfkd (s : pystr) : pystr := canonical_order (flat_map decomp s).

(** *** LivestockProjectFilter._normalize_text *)

Definition NBSP : codepoint := 160.          (* U+00A0 *)
Definition FIGURE_SPACE : codepoint := 8199. (* U+2007 *)
Definition THIN_SPACE : codepoint := 8201.   (* U+2009 *)
Definition HAIR_SPACE : codepoint := 8202.   (* U+200A *)

Definition replace_spaces (s : pystr) : pystr :=
  replace HAIR_SPACE SPACE
    (replace THIN_SPACE SPACE
       (replace FIGURE_SPACE SPACE
          (replace NBSP SPACE s))).

(** A cell of the data frame: a string, or NaN where the record had no
    such key. [_normalize_text] maps NaN to the empty string. *)
Definition _normalize_text (text : option pystr) : pystr :=
  match text with
  | None => []
  | Some t => strip (sub_ws false (replace_spaces (nfkd t)))
  end.

(** *** LivestockProjectFilter: patterns and matching *)

(** The only regex constructs the filter compiles: [\b] and a literal
    character ([re.escape] makes every keyword character a literal). *)
Inductive re_item : Type :=
| WordBoundary
| Literal (c : codepoint).

Definition pattern := list re_item.

(** [r'\b' + re.escape(keyword) + r'\b'], compiled with [re.IGNORECASE]. *)
Definition compile_keyword (keyword : pystr) : pattern :=
  WordBoundary :: map Literal keyword ++ [WordBoundary].

Definition _compile_patterns (keywords : list pystr) : list pattern :=
  map compile_keyword keywords.

Definition word_before (prev : option codepoint) : bool :=
  match prev with Some p => isword p | None => false end.

Definition word_after (s : pystr) : bool :=
  match s with c :: _ => isword c | [] => false end.

(** [\b]: exactly one side of the position is a word character; outside
    the string counts as a non-word character. *)
Definition at_boundary (prev : option codepoint) (s : pystr) : bool :=
  xorb (word_before prev) (word_after s).

(** The pattern matched at the current position: [prev] is the character
    just before it, [s] the text from it on. *)
Fixpoint match_here (p : pattern) (prev : option codepoint) (s : pystr) : bool :=
  match p with
  | [] => true
  | WordBoundary :: p' => at_boundary prev s && match_here p' prev s
  | Literal c :: p' =>
      match s with
      | [] => false
      | d :: s' => ci_eq c d && match_here p' (Some d) s'
      end
  end.

(** [pattern.search(text)], as a truth value: some start position matches. *)
Fixpoint search_from (p : pattern) (prev : option codepoint) (s : pystr) : bool :=
  match_here p prev s ||
  match s with
  | [] => false
  | d :: s' => search_from p (Some d) s'
  end.

Definition search (p : pattern) (text : pystr) : bool := search_from p None text.

(** [list(dict.fromkeys(l))]: first occurrences, in order. *)
Fixpoint dedup_from (seen : list pystr) (l : list pystr) : list pystr :=
  match l with
  | [] => []
  | x :: l' =>
      if existsb (pystr_eqb x) seen then dedup_from seen l'
      else x :: dedup_from (x :: seen) l'
  end.

Definition dict_fromkeys (l : list pystr) : list pystr := dedup_from [] l.

(** [not text] fails for NaN (a float that is not zero) and for a
    non-empty string. *)
Definition cell_truthy (text : option pystr) : bool :=
  match text with
  | None => true
  | Some t => truthy t
  end.

(** The loop of [find_keywords_in_text]: [keywords[i]] for every [i]
    whose pattern is found, in the order of the keyword sequence. *)
Fixpoint found_keywords (keywords : list pystr) (patterns : list pattern)
    (normalized_text : pystr) : list pystr :=
  match keywords, patterns with
  | k :: ks, p :: ps =>
      if search p normalized_text
      then k :: found_keywords ks ps normalized_text
      else found_keywords ks ps normalized_text
  | _, _ => []
  end.

Definition find_keywords_in_text (keywords : list pystr) (text : option pystr)
  : list pystr :=
  if negb (cell_truthy text) then []
  else
    let normalized_text := _normalize_text text in
    dict_fromkeys
      (found_keywords keywords (_compile_patterns keywords) normalized_text).

(** *** Records and the data frame *)

(** A record of [projects]: the dict always has 'Project Name' when it is
    not empty; 'Project Description' may be missing. *)
Record project : Type := {
  Project_Name : pystr;
  Project_Description : option pystr
}.

Record annotated : Type := {
  source : project;
  Keywords_Found_in_Project_Name : pystr;
  Keywords_Found_in_Project_Description : pystr
}.

(** What [process_dataframe] returns: the copy as it was when a required
    column is missing, or the frame with the two keyword columns. *)
Inductive frame : Type :=
| Unchanged (rows : list project)
| WithKeywords (rows : list annotated).

Definition keyword_cell (keywords : list pystr) (text : option pystr) : pystr :=
  match find_keywords_in_text keywords text with
  | [] => u "None"
  | found => join (u ", ") found
  end.

Definition has_description (p : project) : bool :=
  match Project_Description p with Some _ => true | None => false end.

Definition process_dataframe (keywords : list pystr) (df : list project) : frame :=
  match df with
  | [] => Unchanged df                      (* no 'Project Name' column *)
  | _ =>
      if negb (existsb has_description df)
      then Unchanged df                     (* no 'Project Description' column *)
      else WithKeywords
             (map (fun p =>
                     {| source := p;
                        Keywords_Found_in_Project_Name :=
                          keyword_cell keywords (Some (Project_Name p));
                        Keywords_Found_in_Project_Description :=
                          keyword_cell keywords (Project_Description p) |})
                  df)
  end.

(** *** parse_pdf_to_dataframe *)

(** [[line.strip() for line in pdf_text.split('\n') if line.strip()]] *)
Definition document_lines (pdf_text : pystr) : list pystr :=
  map strip (filter (fun line => truthy (strip line)) (split_on NEWLINE pdf_text)).

Definition name_patterns : list pystr :=
  [u "project:"; u "project name:"; u "title:"; u "nombre del proyecto:"].

(** The last label is written in the source file with the two characters
    U+00C3 U+00B3 between "descripci" and "n:". *)
Definition description_patterns : list pystr :=
  [u "description:"; u "project description:"; u "summary:";
   u "descripci" ++ [195; 179] ++ u "n:"].

Definition stop_words : list pystr :=
  [u "project:"; u "title:"; u "budget:"; u "cost:"; u "date:"].

(** [any(pattern in s for pattern in patterns)] *)
Definition any_in (patterns : list pystr) (s : pystr) : bool :=
  existsb (fun p => contains p s) patterns.

(** [line.split(':', 1)[1].strip() if ':' in line else line.strip()] *)
Definition label_value (line : pystr) : pystr :=
  if contains [COLON] line then strip (after_first COLON line) else strip line.

(** The look-ahead of Strategy 1 over [lines[i+1:]]: append every line up
    to the first one holding a stop word. *)
Fixpoint continuation (desc : pystr) (following : list pystr) : pystr :=
  match following with
  | [] => desc
  | l :: following' =>
      if any_in stop_words (lower l) then desc
      else continuation
             (if truthy (strip l) then desc ++ [SPACE] ++ strip l else desc)
             following'
  end.

(** The state of the first loop: [projects] and [current_project]
    ([None] is the empty dict). *)
Definition s1_state : Type := list project * option project.

Definition close_current (st : s1_state) : list project :=
  match snd st with
  | Some p => fst st ++ [p]
  | None => fst st
  end.

(** One iteration on [line = lines[i]], with [following = lines[i+1:]]. *)
Definition s1_step (line : pystr) (following : list pystr) (st : s1_state)
  : s1_state :=
  if any_in name_patterns (lower line) then
    (close_current st,
     Some {| Project_Name := label_value line; Project_Description := None |})
  else if any_in description_patterns (lower line) then
    match snd st with
    | Some p =>
        (fst st,
         Some {| Project_Name := Project_Name p;
                 Project_Description :=
                   Some (continuation (label_value line) following) |})
    | None => st
    end
  else st.

Fixpoint s1_loop (lines : list pystr) (st : s1_state) : s1_state :=
  match lines with
  | [] => st
  | line :: following => s1_loop following (s1_step line following st)
  end.

(** Strategy 1, with the last project added. *)
Definition strategy1 (lines : list pystr) : list project :=
  close_current (s1_loop lines ([], None)).

(** Strategy 2. *)
Definition is_header (line : pystr) : bool :=
  contains (u "project") (lower line)
  && (contains (u "name") (lower line) || contains (u "title") (lower line)).

(** [lines[header_line + 1:]] for the first header line, if there is one. *)
Fixpoint after_header (lines : list pystr) : option (list pystr) :=
  match lines with
  | [] => None
  | line :: rest => if is_header line then Some rest else after_header rest
  end.

Definition table_row (line : pystr) : list project :=
  if truthy line && (2 <=? length (split_ws line))%nat then
    let parts := split_ws_1 line in
    [{| Project_Name := nth 0 parts [];
        Project_Description :=
          Some (if (1 <? length parts)%nat then nth 1 parts [] else []) |}]
  else [].

Definition strategy2 (lines : list pystr) : list project :=
  match after_header lines with
  | None => []
  | Some rows => flat_map table_row rows
  end.

(** Strategy 3: [chunks] and [current_chunk]. *)
Definition s3_state : Type := list pystr * list pystr.

Definition s3_step (line : pystr) (st : s3_state) : s3_state :=
  let '(chunks, current_chunk) := st in
  if (50 <? length line)%nat then (chunks, current_chunk ++ [line])
  else
    match current_chunk with
    | [] => st
    | _ =>
        (if (100 <? length (join [SPACE] current_chunk))%nat
         then chunks ++ [join [SPACE] current_chunk]
         else chunks,
         [])
    end.

Fixpoint s3_loop (lines : list pystr) (st : s3_state) : s3_state :=
  match lines with
  | [] => st
  | line :: rest => s3_loop rest (s3_step line st)
  end.

Definition content_chunks (lines : list pystr) : list pystr :=
  let '(chunks, current_chunk) := s3_loop lines ([], []) in
  match current_chunk with
  | [] => chunks
  | _ =>
      if (100 <? length (join [SPACE] current_chunk))%nat
      then chunks ++ [join [SPACE] current_chunk]
      else chunks
  end.

Definition section_record (i : nat) (chunk : pystr) : project :=
  let sentences := split_on PERIOD chunk in
  let title := firstn 100 (strip (nth 0 sentences [])) in
  {| Project_Name := u "Section " ++ str_of_nat (i + 1) ++ u ": " ++ title;
     Project_Description := Some chunk |}.

Fixpoint enumerate_from {A : Type} (i : nat) (l : list A) : list (nat * A) :=
  match l with
  | [] => []
  | x :: l' => (i, x) :: enumerate_from (S i) l'
  end.

Definition strategy3 (lines : list pystr) : list project :=
  map (fun ic => section_record (fst ic) (snd ic))
      (enumerate_from 0 (firstn 10 (content_chunks lines))).

Definition fallback_record (pdf_text pdf_filename : pystr) : project :=
  {| Project_Name := u "Full Document Analysis - " ++ pdf_filename;
     Project_Description := Some (firstn 2000 pdf_text) |}.

Definition msg_alternative (pdf_filename : pystr) : pystr :=
  u "No structured project data found in " ++ pdf_filename
    ++ u ". Trying alternative parsing...".

Definition msg_content (pdf_filename : pystr) : pystr :=
  u "Creating content-based analysis for " ++ pdf_filename ++ u "...".

(** [parse_pdf_to_dataframe]: the rows of the returned frame, and the lines
    it printed (one each time Strategy 2 or Strategy 3 is entered). *)
Definition parse_pdf_to_dataframe (pdf_text pdf_filename : pystr)
  : list project * list pystr :=
  let lines := document_lines pdf_text in
  let projects := strategy1 lines in
  let '(projects, out) :=
    match projects with
    | [] => (strategy2 lines, [msg_alternative pdf_filename])
    | _ => (projects, [])
    end in
  let '(projects, out) :=
    match projects with
    | [] => (strategy3 lines, out ++ [msg_content pdf_filename])
    | _ => (projects, out)
    end in
  let projects :=
    match projects with
    | [] => [fallback_record pdf_text pdf_filename]
    | _ => projects
    end in
  (projects, out).

(** [process_single_pdf], from the text [extract_text_from_pdf] returned:
    [None] where the function returns False, otherwise the frame it goes
    on to write out. *)
Definition process_single_pdf (keywords : list pystr)
    (pdf_text pdf_filename : pystr) : option frame :=
  if negb (truthy (strip pdf_text)) then None
  else
    match fst (parse_pdf_to_dataframe pdf_text pdf_filename) with
    | [] => None
    | df => Some (process_dataframe keywords df)
    end.

End Unicode.

(** ** Vocabulary of the properties *)

(** The tables obey the Unicode standard when a full decomposition needs no
    further decomposing. *)
Definition decomposition_full (U : unicode_tables) : Prop :=
  forall c d, In d (decomp U c) -> decomp U d = [d].

(** A small table with real entries: U+00E9 is e with U+0301 (class 230),
    U+1EA1 is a with U+0323 (class 220), U+00A8 is a space with U+0308,
    and U+00A0, U+2007, U+2009, U+200A decompose to a space. *)
Definition sample_tables : unicode_tables := {|
  decomposition := fun c =>
    if c =? 233 then [101; 769]
    else if c =? 7841 then [97; 803]
    else if c =? 168 then [32; 776]
    else if (c =? 160) || (c =? 8199) || (c =? 8201) || (c =? 8202) then [32]
    else [c];
  combining := fun c =>
    if (c =? 769) || (c =? 776) then 230
    else if c =? 803 then 220
    else 0;
  tolower_full := fun _ c _ => [c];
  isalnum := fun c => (c =? 233) || (c =? 7841);
  ignorecase_eq := N.eqb
|}.

(** No whitespace at the front. *)
Definition starts_clean (s : pystr) : Prop :=
  match s with
  | [] => True
  | c :: _ => isspace c = false
  end.

(** Whitespace occurs only as single ordinary spaces; with [in_run] not
    even at the front. *)
Fixpoint tidy (in_run : bool) (s : pystr) : Prop :=
  match s with
  | [] => True
  | c :: s' =>
      if isspace c then c = SPACE /\ in_run = false /\ tidy true s'
      else tidy false s'
  end.

(** [l1] is [l2] with some elements left out, the order kept. *)
Inductive subsequence {A : Type} : list A -> list A -> Prop :=
| subsequence_nil : subsequence [] []
| subsequence_skip x l1 l2 : subsequence l1 l2 -> subsequence l1 (x :: l2)
| subsequence_take x l1 l2 : subsequence l1 l2 -> subsequence (x :: l1) (x :: l2).

(** None of the four spaces [_normalize_text] replaces. *)
Definition odd_space_free (c : codepoint) : Prop :=
  c <> NBSP /\ c <> FIGURE_SPACE /\ c <> THIN_SPACE /\ c <> HAIR_SPACE.


(** The open record, given the description found for it. *)
Definition describe (p : project) (d : option pystr) : project :=
  match d with
  | Some _ => {| Project_Name := Project_Name p; Project_Description := d |}
  | None => p
  end.

(** The line begins with one of the labels. *)
Definition begins_with_any (patterns : list pystr) (s : pystr) : bool :=
  existsb (startswith s) patterns.

(** Strategy 3: the chunk in progress, closed. *)
Definition flush (st : s3_state) : list pystr :=
  match snd st with
  | [] => fst st
  | _ =>
      if (100 <? length (join [SPACE] (snd st)))%nat
      then fst st ++ [join [SPACE] (snd st)]
      else fst st
  end.

(** A line long enough to join a chunk. *)
Definition substantial (line : pystr) : Prop := (50 < length line)%nat.

(** Empty, or whitespace only. *)
Definition all_space (s : pystr) : Prop := Forall (fun c => isspace c = true) s.

Section Vocabulary.

Variable U : unicode_tables.

(** [a] directly before [b] is a pair the canonical ordering exchanges. *)
Definition out_of_order (a b : codepoint) : bool :=
  (0 <? ccc U b) && (ccc U b <? ccc U a).

(** In canonical order: no adjacent pair is left to exchange. *)
Definition head_ok (a : codepoint) (t : pystr) : Prop :=
  match t with
  | [] => True
  | b :: _ => out_of_order a b = false
  end.

Fixpoint ordered (s : pystr) : Prop :=
  match s with
  | [] => True
  | a :: t => head_ok a t /\ ordered t
  end.

(** A code point that is its own decomposition. *)
Definition stable (c : codepoint) : Prop := decomp U c = [c].





(** [find_keywords_in_text]'s test for one keyword. *)
Definition keyword_matches (keyword text : pystr) : bool :=
  search U (compile_keyword keyword) (_normalize_text U (Some text)).

(** Strategy 1 read off the lines, without the loop's state.  A line is a
    name line when its lower-cased text holds a name label anywhere; it is
    a description line when it holds a description label and no name
    label. *)
Definition is_name_line (line : pystr) : bool :=
  any_in name_patterns (lower U line).

Definition is_description_line (line : pystr) : bool :=
  negb (is_name_line line) && any_in description_patterns (lower U line).

(** The description the open record ends up with: that of the last
    description line before the next name line. *)
Fixpoint open_description (lines : list pystr) : option pystr :=
  match lines with
  | [] => None
  | l :: rest =>
      if is_name_line l then None
      else match open_description rest with
           | Some d => Some d
           | None =>
               if is_description_line l
               then Some (continuation U (label_value l) rest)
               else None
           end
  end.

(** One record per name line, in order of the lines. *)
Fixpoint labeled_records (lines : list pystr) : list project :=
  match lines with
  | [] => []
  | l :: rest =>
      if is_name_line l
      then {| Project_Name := label_value l;
              Project_Description := open_description rest |}
             :: labeled_records rest
      else labeled_records rest
  end.

(** The following lines, up to the first one that holds a stop word. *)
Fixpoint until_stop (following : list pystr) : list pystr :=
  match following with
  | [] => []
  | l :: following' =>
      if any_in stop_words (lower U l) then [] else l :: until_stop following'
  end.

End Vocabulary.

(** ** The rest of the pipeline *)

(** [extract_text_from_pdf]: [pages] holds what [page.extract_text()] gave
    for each page, or is [None] when reading raised; every page text is
    followed by a newline. *)
Definition extract_text_from_pdf (pages : option (list pystr)) : pystr :=
  match pages with
  | None => []
  | Some ps => fold_left (fun text page => text ++ page ++ [NEWLINE]) ps []
  end.

(** The cell of a keyword column differs from 'None'. *)
Definition name_matched (r : annotated) : bool :=
  negb (pystr_eqb (Keywords_Found_in_Project_Name r) (u "None")).

Definition description_matched (r : annotated) : bool :=
  negb (pystr_eqb (Keywords_Found_in_Project_Description r) (u "None")).

Definition any_matched (r : annotated) : bool :=
  name_matched r || description_matched r.

(** What [process_single_pdf] computes after enrichment: the three
    counters it prints and puts on the 'Summary' sheet, the 'All Projects'
    sheet, and the 'Livestock Projects' sheet, written only when it has a
    row. *)
Record report : Type := {
  all_projects : list annotated;
  livestock_projects : option (list annotated);
  total_projects : nat;
  name_matches : nat;
  desc_matches : nat;
  total_matches : nat
}.

Definition make_report (processed_df : list annotated) : report :=
  let matched_df := filter any_matched processed_df in
  {| all_projects := processed_df;
     livestock_projects :=
       match matched_df with [] => None | _ => Some matched_df end;
     total_projects := length processed_df;
     name_matches := length (filter name_matched processed_df);
     desc_matches := length (filter description_matched processed_df);
     total_matches := length (filter any_matched processed_df) |}.

(** How far a call of [process_single_pdf] gets before it writes any
    file (lines 224-259): it has returned False, it has raised KeyError at
    the first keyword column it reads, or it has its statistics and goes on
    to create the output directory and to call the CSV and Excel writers.
    Those calls (lines 261-315) and whatever they raise are not modelled. *)
Inductive before_output : Type :=
| ReturnedFalse
| RaisedKeyError
| ReadyToWrite (r : report).

(** The four choices of the Streamlit select box. *)
Inductive filter_option : Type :=
| All_projects
| Keyword_matches_in_name
| Keyword_matches_in_description
| Any_keyword_matches.

(** [filtered_df] of the Streamlit [main]. *)
Definition filtered_df (choice : filter_option) (processed_df : list annotated)
  : list annotated :=
  match choice with
  | All_projects => processed_df
  | Keyword_matches_in_name => filter name_matched processed_df
  | Keyword_matches_in_description => filter description_matched processed_df
  | Any_keyword_matches => filter any_matched processed_df
  end.

Section Pipeline.

Variable U : unicode_tables.

(** [LivestockProjectFilter._load_keywords]: [file] holds the lines the
    open file yields, or is [None] when opening raised FileNotFoundError. *)
Definition _load_keywords (file : option (list pystr)) : list pystr :=
  match file with
  | None => []
  | Some lines =>
      map (fun line => lower U (strip line))
          (filter (fun line => truthy (strip line)) lines)
  end.

(** [process_single_pdf] from the pages read, up to the point where it
    starts writing its output. *)
Definition process_single_pdf_before_output (keywords : list pystr)
    (pages : option (list pystr)) (pdf_filename : pystr) : before_output :=
  let pdf_text := extract_text_from_pdf pages in
  if negb (truthy (strip pdf_text)) then ReturnedFalse
  else
    match fst (parse_pdf_to_dataframe U pdf_text pdf_filename) with
    | [] => ReturnedFalse
    | df =>
        match process_dataframe U keywords df with
        | Unchanged _ => RaisedKeyError
        | WithKeywords processed_df => ReadyToWrite (make_report processed_df)
        end
    end.

End Pipeline.

(** ** The Streamlit application's parser ([filter_livestock_projects.py]) *)

Module FilterApp.

(** One iteration of the loop of [parse_pdf_to_dataframe] on a raw line. *)
Definition parse_step (raw : pystr) (st : s1_state) : s1_state :=
  let line := strip raw in
  if negb (truthy line) then st
  else if startswith line (u "Project:") || startswith line (u "Project Name:")
  then
    (close_current st,
     Some {| Project_Name := strip (after_first COLON line);
             Project_Description := None |})
  else if startswith line (u "Description:")
          || startswith line (u "Project Description:")
  then
    match snd st with
    | Some p =>
        (fst st,
         Some {| Project_Name := Project_Name p;
                 Project_Description := Some (strip (after_first COLON line)) |})
    | None => st
    end
  else
    match snd st with
    | Some p =>
        match Project_Description p with
        | None =>
            (fst st,
             Some {| Project_Name := Project_Name p;
                     Project_Description := Some ([] ++ [SPACE] ++ line) |})
        | Some _ => st
        end
    | None => st
    end.

Fixpoint parse_loop (lines : list pystr) (st : s1_state) : s1_state :=
  match lines with
  | [] => st
  | raw :: rest => parse_loop rest (parse_step raw st)
  end.

(** The records found, before the sample is substituted. *)
Definition parsed_projects (pdf_text : pystr) : list project :=
  close_current (parse_loop (split_on NEWLINE pdf_text) ([], None)).

Definition sample_project : project :=
  {| Project_Name := u "Sample Project - Dairy Farm Development";
     Project_Description :=
       Some (u "Development of sustainable dairy farming practices including cattle health management and milk production efficiency.") |}.

Definition warning : pystr :=
  u "No structured project data found in PDF. Creating sample format for demonstration.".

(** [parse_pdf_to_dataframe]: the rows, and the warning shown. *)
Definition parse_pdf_to_dataframe (pdf_text : pystr)
  : list project * list pystr :=
  match parsed_projects pdf_text with
  | [] => ([sample_project], [warning])
  | projects => (projects, [])
  end.

End FilterApp.

(** ** Vocabulary of the further properties *)

(** Two code points that differ at most by the case of an ASCII letter. *)
Definition up_to_case (c c' : codepoint) : Prop :=
  ascii_lower c = ascii_lower c'.

Definition prev_up_to_case (p p' : option codepoint) : Prop :=
  match p, p' with
  | Some a, Some b => up_to_case a b
  | None, None => True
  | _, _ => False
  end.

Definition ascii_text (s : pystr) : Prop := Forall (fun c => is_ascii c = true) s.

(** A pattern whose literal characters are ASCII. *)
Definition ascii_pattern (p : pattern) : Prop :=
  Forall (fun i => match i with
                   | Literal c => is_ascii c = true
                   | WordBoundary => True
                   end) p.

(** Without any whitespace character. *)
Definition unspaced (s : pystr) : Prop := Forall (fun c => isspace c = false) s.

(** [chunk] is longer than 100 characters and is a run of consecutive
    substantial lines of [lines], joined by single spaces. *)
Definition chunk_of (lines : list pystr) (chunk : pystr) : Prop :=
  (100 < length chunk)%nat
  /\ exists pre run post,
       lines = pre ++ run ++ post /\ run <> [] /\ Forall substantial run
       /\ chunk = join [SPACE] run.

(** The web page's parser: a raw line that starts a record, one that sets
    the description, and the name a record gets. *)
Definition app_project_line (raw : pystr) : bool :=
  startswith (strip raw) (u "Project:")
  || startswith (strip raw) (u "Project Name:").

Definition app_description_line (raw : pystr) : bool :=
  negb (app_project_line raw)
  && (startswith (strip raw) (u "Description:")
      || startswith (strip raw) (u "Project Description:")).

Definition app_name (raw : pystr) : pystr :=
  strip (after_first COLON (strip raw)).

(** The character before the position, if any, is ASCII. *)
Definition ascii_prev (prev : option codepoint) : Prop :=
  match prev with Some c => is_ascii c = true | None => True end.


(** ** Whitespace: strip and collapse *)

Lemma lstrip_clean s : starts_clean (lstrip s).
Proof.
  induction s as [|c s IH]; simpl; [exact I|].
  destruct (isspace c) eqn:E; [exact IH | exact E].
Qed.

Lemma lstrip_fixed s : starts_clean s -> lstrip s = s.
Proof.
  destruct s as [|c s]; simpl; [reflexivity|].
  intros ->. reflexivity.
Qed.

Lemma rstrip_cons_word c s : isspace c = false -> rstrip (c :: s) = c :: rstrip s.
Proof.
  intros E. simpl. rewrite E. destruct (rstrip s); reflexivity.
Qed.

Lemma rstrip_clean s : starts_clean s -> starts_clean (rstrip s).
Proof.
  destruct s as [|c s]; [intros _; exact I|].
  intros E. rewrite (rstrip_cons_word _ _ E). exact E.
Qed.

Lemma rstrip_idem s : rstrip (rstrip s) = rstrip s.
Proof.
  induction s as [|c s IH]; [reflexivity|].
  simpl. destruct (rstrip s) as [|d r] eqn:E.
  - destruct (isspace c) eqn:Ec; simpl; [reflexivity | now rewrite Ec].
  - change (rstrip (c :: d :: r)) with
      (match rstrip (d :: r) with
       | [] => if isspace c then [] else [c]
       | x => c :: x
       end).
    rewrite IH. reflexivity.
Qed.

Lemma strip_idem s : strip (strip s) = strip s.
Proof.
  unfold strip.
  rewrite (lstrip_fixed (rstrip (lstrip s))).
  - apply rstrip_idem.
  - apply rstrip_clean, lstrip_clean.
Qed.

Lemma tidy_sub_ws s : forall b, tidy b (sub_ws b s).
Proof.
  induction s as [|c s IH]; intros b; simpl; [exact I|].
  destruct (isspace c) eqn:E.
  - destruct b; [apply IH|].
    simpl. repeat split. apply IH.
  - simpl. rewrite E. apply IH.
Qed.

Lemma tidy_fixed s : forall b, tidy b s -> sub_ws b s = s.
Proof.
  induction s as [|c s IH]; intros b; simpl; [reflexivity|].
  destruct (isspace c) eqn:E.
  - intros (-> & -> & H). f_equal. now apply IH.
  - intros H. f_equal. now apply IH.
Qed.

Lemma tidy_lstrip s : forall b, tidy b s -> tidy false (lstrip s).
Proof.
  induction s as [|c s IH]; intros b; simpl; [trivial|].
  destruct (isspace c) eqn:E.
  - intros (_ & _ & H). now apply IH with (b := true).
  - intros H. simpl. now rewrite E.
Qed.

Lemma tidy_rstrip s : forall b, tidy b s -> tidy b (rstrip s).
Proof.
  induction s as [|c s IH]; intros b; [trivial|].
  intros H. simpl in H. simpl rstrip.
  destruct (rstrip s) as [|d r] eqn:Er.
  - destruct (isspace c) eqn:E; simpl; [exact I | now rewrite E].
  - change (tidy b (c :: d :: r)) with
      (if isspace c then c = SPACE /\ b = false /\ tidy true (d :: r)
       else tidy false (d :: r)).
    destruct (isspace c).
    + destruct H as (H1 & H2 & H3). repeat split; trivial. now apply IH.
    + now apply IH.
Qed.

Lemma sub_ws_strip_fixed s :
  sub_ws false (strip (sub_ws false s)) = strip (sub_ws false s).
Proof.
  apply tidy_fixed. unfold strip.
  apply tidy_rstrip, (tidy_lstrip _ false), tidy_sub_ws.
Qed.

(** ** NFKD: canonical order *)

Section Normalisation.

Variable U : unicode_tables.

Lemma ccc_space : ccc U SPACE = 0.
Proof. reflexivity. Qed.

Lemma out_of_order_space_l b : out_of_order U SPACE b = false.
Proof.
  unfold out_of_order. rewrite ccc_space.
  destruct (0 <? ccc U b); simpl; [apply N.ltb_ge; lia | reflexivity].
Qed.

Lemma out_of_order_space_r a : out_of_order U a SPACE = false.
Proof. reflexivity. Qed.

Lemma head_ok_space t : head_ok U SPACE t.
Proof. destruct t; simpl; [exact I | apply out_of_order_space_l]. Qed.

Lemma reorder_insert_ordered c l : ordered U l -> ordered U (reorder_insert U c l).
Proof.
  induction l as [|d l IH]; simpl.
  - intros _. split; exact I.
  - intros [Hd Hl].
    destruct ((0 <? ccc U d) && (ccc U d <? ccc U c)) eqn:E.
    + split; [|now apply IH].
      destruct l as [|e l]; simpl.
      * unfold out_of_order.
        apply andb_true_iff in E. destruct E as [_ E].
        apply N.ltb_lt in E.
        apply andb_false_iff. right. apply N.ltb_ge. lia.
      * destruct ((0 <? ccc U e) && (ccc U e <? ccc U c)); simpl.
        -- exact Hd.
        -- unfold out_of_order.
           apply andb_true_iff in E. destruct E as [_ E].
           apply N.ltb_lt in E.
           apply andb_false_iff. right. apply N.ltb_ge. lia.
    + simpl. repeat split; assumption.
Qed.

Lemma canonical_order_ordered s : ordered U (canonical_order U s).
Proof.
  induction s as [|c s IH]; simpl; [exact I|].
  now apply reorder_insert_ordered.
Qed.

Lemma canonical_order_fixed s : ordered U s -> canonical_order U s = s.
Proof.
  induction s as [|c s IH]; simpl; [reflexivity|].
  intros [Hc Hs]. rewrite (IH Hs).
  destruct s as [|d s]; [reflexivity|].
  simpl in Hc. unfold out_of_order in Hc. simpl. now rewrite Hc.
Qed.

Lemma Forall_reorder_insert (Q : codepoint -> Prop) c l :
  Q c -> Forall Q l -> Forall Q (reorder_insert U c l).
Proof.
  intros Hc. induction 1 as [|d l Hd Hl IH]; simpl.
  - repeat constructor; assumption.
  - destruct ((0 <? ccc U d) && (ccc U d <? ccc U c));
      repeat constructor; assumption.
Qed.

Lemma Forall_canonical_order (Q : codepoint -> Prop) s :
  Forall Q s -> Forall Q (canonical_order U s).
Proof.
  induction 1; simpl; [constructor|].
  now apply Forall_reorder_insert.
Qed.

Lemma flat_map_stable s : Forall (stable U) s -> flat_map (decomp U) s = s.
Proof.
  induction 1 as [|c s Hc Hs IH]; simpl; [reflexivity|].
  rewrite Hc, IH. reflexivity.
Qed.

Lemma nfkd_fixed s : Forall (stable U) s -> ordered U s -> nfkd U s = s.
Proof.
  intros Hs Ho. unfold nfkd.
  rewrite (flat_map_stable _ Hs). now apply canonical_order_fixed.
Qed.

Lemma nfkd_ordered s : ordered U (nfkd U s).
Proof. apply canonical_order_ordered. Qed.

Lemma nfkd_stable s : decomposition_full U -> Forall (stable U) (nfkd U s).
Proof.
  intros Hfull. apply Forall_canonical_order.
  apply Forall_forall. intros d Hd.
  apply in_flat_map in Hd. destruct Hd as (c & _ & Hd).
  exact (Hfull c d Hd).
Qed.

Lemma stable_space : stable U SPACE.
Proof. reflexivity. Qed.

(** What replacing, collapsing and stripping keep. *)

Lemma Forall_replace (Q : codepoint -> Prop) old s :
  Q SPACE -> Forall Q s -> Forall Q (replace old SPACE s).
Proof.
  intros Hsp. induction 1 as [|c s Hc Hs IH]; simpl; constructor; trivial.
  destruct (c =? old); assumption.
Qed.

Lemma Forall_sub_ws (Q : codepoint -> Prop) s :
  Q SPACE -> Forall Q s -> forall b, Forall Q (sub_ws b s).
Proof.
  intros Hsp. induction 1 as [|c s Hc Hs IH]; intros b; simpl; [constructor|].
  destruct (isspace c); [destruct b|]; try constructor; auto.
Qed.

Lemma Forall_lstrip (Q : codepoint -> Prop) s :
  Forall Q s -> Forall Q (lstrip s).
Proof.
  induction 1 as [|c s Hc Hs IH]; simpl; [constructor|].
  destruct (isspace c); [assumption | now constructor].
Qed.

Lemma Forall_rstrip (Q : codepoint -> Prop) s :
  Forall Q s -> Forall Q (rstrip s).
Proof.
  induction 1 as [|c s Hc Hs IH]; simpl; [constructor|].
  revert IH. destruct (rstrip s); intros IH.
  - destruct (isspace c); repeat constructor; trivial.
  - now constructor.
Qed.

Lemma Forall_strip (Q : codepoint -> Prop) s :
  Forall Q s -> Forall Q (strip s).
Proof. intros H. now apply Forall_rstrip, Forall_lstrip. Qed.

Lemma ordered_replace old s : ordered U s -> ordered U (replace old SPACE s).
Proof.
  induction s as [|a s IH]; simpl; [trivial|].
  intros [Ha Hs]. split; [|now apply IH].
  destruct s as [|b s]; simpl; [exact I|].
  simpl in Ha.
  destruct (b =? old); [apply out_of_order_space_r|].
  destruct (a =? old); [apply out_of_order_space_l | exact Ha].
Qed.

Lemma head_ok_sub_ws a s : head_ok U a s -> head_ok U a (sub_ws false s).
Proof.
  destruct s as [|b s]; simpl; [trivial|].
  destruct (isspace b); simpl; [intros _; apply out_of_order_space_r | trivial].
Qed.

Lemma ordered_sub_ws s : ordered U s -> forall b, ordered U (sub_ws b s).
Proof.
  induction s as [|a s IH]; simpl; [trivial|].
  intros [Ha Hs] b.
  destruct (isspace a).
  - destruct b; [now apply IH|].
    split; [apply head_ok_space | now apply IH].
  - split; [now apply head_ok_sub_ws | now apply IH].
Qed.

Lemma ordered_lstrip s : ordered U s -> ordered U (lstrip s).
Proof.
  induction s as [|a s IH]; simpl; [trivial|].
  intros [Ha Hs]. destruct (isspace a); [now apply IH | now split].
Qed.

Lemma head_ok_rstrip a s : head_ok U a s -> head_ok U a (rstrip s).
Proof.
  destruct s as [|b s]; simpl; [trivial|].
  intros H. destruct (rstrip s); [destruct (isspace b)|]; simpl; trivial.
Qed.

Lemma ordered_rstrip s : ordered U s -> ordered U (rstrip s).
Proof.
  induction s as [|a s IH]; [trivial|].
  intros [Ha Hs]. simpl rstrip.
  destruct (rstrip s) as [|d r] eqn:E.
  - destruct (isspace a); simpl; auto.
  - split; [|now apply IH].
    rewrite <- E. now apply head_ok_rstrip.
Qed.

Lemma replace_fixed old s :
  Forall (fun c => c <> old) s -> replace old SPACE s = s.
Proof.
  induction 1 as [|c s Hc Hs IH]; simpl; [reflexivity|].
  apply N.eqb_neq in Hc. fold (replace old SPACE s). now rewrite Hc, IH.
Qed.

Lemma replace_spaces_free s : Forall odd_space_free (replace_spaces s).
Proof.
  unfold replace_spaces, replace. rewrite !map_map.
  apply Forall_forall. intros d Hd.
  apply in_map_iff in Hd. destruct Hd as (c & <- & _).
  unfold odd_space_free, NBSP, FIGURE_SPACE, THIN_SPACE, HAIR_SPACE, SPACE.
  destruct (N.eqb_spec c 160); simpl; [repeat split; discriminate|].
  destruct (N.eqb_spec c 8199); simpl; [repeat split; discriminate|].
  destruct (N.eqb_spec c 8201); simpl; [repeat split; discriminate|].
  destruct (N.eqb_spec c 8202); simpl; [repeat split; discriminate|].
  repeat split; assumption.
Qed.

Lemma replace_spaces_fixed s :
  Forall odd_space_free s -> replace_spaces s = s.
Proof.
  intros H. unfold replace_spaces.
  rewrite (replace_fixed NBSP s), (replace_fixed FIGURE_SPACE s),
    (replace_fixed THIN_SPACE s), (replace_fixed HAIR_SPACE s);
    trivial; eapply Forall_impl; try exact H; unfold odd_space_free; tauto.
Qed.

Lemma odd_space_free_space : odd_space_free SPACE.
Proof. repeat split; discriminate. Qed.

(** The normal form [_normalize_text] produces, and why a second pass
    leaves it alone. *)
Lemma normalized_fixed r :
  Forall (stable U) r -> ordered U r -> Forall odd_space_free r ->
  tidy false r -> strip r = r ->
  _normalize_text U (Some r) = r.
Proof.
  intros Hst Hor Hfree Htidy Hstrip. simpl.
  rewrite (nfkd_fixed _ Hst Hor), (replace_spaces_fixed _ Hfree),
    (tidy_fixed _ _ Htidy).
  exact Hstrip.
Qed.

(** C4. Text normalisation is idempotent: for every cell [x] (a string or
    the missing value), normalising the normalised text gives the
    normalised text again.  The string may hold any code points: the odd
    spaces U+00A0, U+2007, U+2009, U+200A, runs of whitespace, composed
    accented characters.  The Unicode tables are only required to give
    full decompositions. *)
Theorem normalize_text_idempotent :
  decomposition_full U ->
  forall x : option pystr,
    _normalize_text U (Some (_normalize_text U x)) = _normalize_text U x.
Proof.
  intros Hfull [s|]; [|reflexivity].
  apply normalized_fixed; simpl.
  - apply Forall_strip, Forall_sub_ws; [apply stable_space|].
    unfold replace_spaces.
    repeat (apply Forall_replace; [apply stable_space|]).
    now apply nfkd_stable.
  - unfold strip. apply ordered_rstrip, ordered_lstrip, ordered_sub_ws.
    unfold replace_spaces. repeat apply ordered_replace.
    apply nfkd_ordered.
  - apply Forall_strip, Forall_sub_ws; [apply odd_space_free_space|].
    apply replace_spaces_free.
  - unfold strip. apply tidy_rstrip, (tidy_lstrip _ false), tidy_sub_ws.
  - apply strip_idem.
Qed.

End Normalisation.

(** ** Keyword matching *)

Section Matching.

Variable U : unicode_tables.









End Matching.




(** ** The keyword list a query returns *)

Lemma subsequence_refl {A : Type} (l : list A) : subsequence l l.
Proof. induction l; constructor; assumption. Qed.

Lemma subsequence_trans {A : Type} (l1 l2 l3 : list A) :
  subsequence l1 l2 -> subsequence l2 l3 -> subsequence l1 l3.
Proof.
  intros H12 H23. revert l1 H12.
  induction H23 as [|x l2 l3 H IH|x l2 l3 H IH]; intros l1 H12.
  - exact H12.
  - constructor. now apply IH.
  - inversion H12; subst; constructor; now apply IH.
Qed.

Lemma filter_subsequence {A : Type} (f : A -> bool) l :
  subsequence (filter f l) l.
Proof.
  induction l as [|x l IH]; simpl; [constructor|].
  destruct (f x); constructor; assumption.
Qed.

Lemma filter_none {A : Type} (f : A -> bool) l :
  (forall x, f x = false) -> filter f l = [].
Proof.
  intros H. induction l as [|x l IH]; simpl; [reflexivity|].
  now rewrite H.
Qed.

Lemma filter_none_on {A : Type} (f : A -> bool) l :
  Forall (fun x => f x = false) l -> filter f l = [].
Proof.
  induction 1 as [|x l Hx Hl IH]; simpl; [reflexivity|].
  now rewrite Hx.
Qed.

Lemma pystr_eqb_eq a b : pystr_eqb a b = true <-> a = b.
Proof.
  unfold pystr_eqb. destruct (list_eq_dec N.eq_dec a b); split;
    congruence.
Qed.

Lemma seen_In x seen : existsb (pystr_eqb x) seen = true <-> In x seen.
Proof.
  rewrite existsb_exists. split.
  - intros (y & Hy & E). apply pystr_eqb_eq in E. now subst.
  - intros H. exists x. split; [exact H | now apply pystr_eqb_eq].
Qed.

Lemma dedup_from_subsequence l : forall seen, subsequence (dedup_from seen l) l.
Proof.
  induction l as [|x l IH]; intros seen; simpl; [constructor|].
  destruct (existsb (pystr_eqb x) seen); constructor; apply IH.
Qed.

Lemma dedup_from_In l : forall seen x,
  In x (dedup_from seen l) <-> In x l /\ ~ In x seen.
Proof.
  induction l as [|y l IH]; intros seen x; simpl; [tauto|].
  destruct (existsb (pystr_eqb y) seen) eqn:E.
  - apply seen_In in E. rewrite IH. split; [tauto|].
    intros [[-> | H] Hn]; [contradiction | tauto].
  - assert (Hy : ~ In y seen) by (rewrite <- seen_In; congruence).
    simpl. rewrite IH. simpl. split.
    + intros [<- | [H Hn]]; [tauto|]. split; [tauto|]. intros Hs. apply Hn. now right.
    + intros [[<- | H] Hn]; [now left|].
      destruct (list_eq_dec N.eq_dec y x) as [->|Hne]; [now left|].
      right. split; [exact H|]. intros [E' | Hs]; [congruence | contradiction].
Qed.

Lemma dedup_from_NoDup l : forall seen, NoDup (dedup_from seen l).
Proof.
  induction l as [|y l IH]; intros seen; simpl; [constructor|].
  destruct (existsb (pystr_eqb y) seen); [apply IH|].
  constructor; [|apply IH].
  rewrite dedup_from_In. intros [_ H]. apply H. now left.
Qed.

Section Query.

Variable U : unicode_tables.

Lemma found_keywords_filter keywords t :
  found_keywords U keywords (_compile_patterns keywords) t
  = filter (fun k => search U (compile_keyword k) t) keywords.
Proof.
  induction keywords as [|k ks IH]; simpl; [reflexivity|].
  fold (_compile_patterns ks). rewrite IH. reflexivity.
Qed.

Lemma search_keyword_empty kw : search U (compile_keyword kw) [] = false.
Proof.
  unfold search, compile_keyword. simpl. reflexivity.
Qed.

Lemma keyword_matches_empty kw : keyword_matches U kw [] = false.
Proof. reflexivity. Qed.

Lemma find_keywords_unfold keywords text :
  find_keywords_in_text U keywords (Some text)
  = dict_fromkeys (filter (fun k => keyword_matches U k text) keywords).
Proof.
  unfold find_keywords_in_text. destruct text as [|c text].
  - simpl negb. cbv iota. symmetry.
    replace (filter (fun k => keyword_matches U k []) keywords) with (@nil pystr);
      [reflexivity|].
    symmetry. apply filter_none. apply keyword_matches_empty.
  - simpl negb. cbv iota. cbv zeta. rewrite found_keywords_filter. reflexivity.
Qed.

End Query.

(** C5. A query is a function of the tables, the keyword sequence and the
    text, so two runs on the same input agree; the text counts only
    through its normalised form.  Its result has no
    duplicates, lists keywords in the order of the keyword sequence (it is
    a subsequence of it), and holds exactly the keywords of the sequence
    that match the text.  The order is not alphabetical: with the sequence
    "dairy", "cattle" the text "cattle and dairy" gives "dairy", "cattle";
    a keyword listed twice is reported once, at its first place. *)
Theorem find_keywords_ordered_dedup :
  forall U keywords text,
    (forall text',
       _normalize_text U (Some text') = _normalize_text U (Some text) ->
       find_keywords_in_text U keywords (Some text')
       = find_keywords_in_text U keywords (Some text))
    /\ NoDup (find_keywords_in_text U keywords (Some text))
    /\ subsequence (find_keywords_in_text U keywords (Some text)) keywords
    /\ (forall k, In k (find_keywords_in_text U keywords (Some text)) <->
                  In k keywords /\ keyword_matches U k text = true)
    /\ find_keywords_in_text U [u "dairy"; u "cattle"] (Some (u "cattle and dairy"))
       = [u "dairy"; u "cattle"]
    /\ find_keywords_in_text U [u "dairy"; u "cattle"; u "dairy"]
         (Some (u "cattle and dairy"))
       = [u "dairy"; u "cattle"].
Proof.
  intros U keywords text.
  split.
  { intros text' E. rewrite !find_keywords_unfold. f_equal.
    apply filter_ext. intros k. unfold keyword_matches. now rewrite E. }
  rewrite find_keywords_unfold. unfold dict_fromkeys.
  split; [apply dedup_from_NoDup|].
  split.
  - eapply subsequence_trans; [apply dedup_from_subsequence|].
    apply filter_subsequence.
  - split.
    + intros k. rewrite dedup_from_In, filter_In. simpl. tauto.
    + split; vm_compute; reflexivity.
Qed.

Lemma find_keywords_ordered_dedup_witness :
  _normalize_text plain_tables (Some (u "Dairy   cattle"))
  = _normalize_text plain_tables (Some (u " Dairy cattle "))
  /\ find_keywords_in_text plain_tables [u "dairy"; u "cattle"]
       (Some (u "Dairy   cattle"))
     = find_keywords_in_text plain_tables [u "dairy"; u "cattle"]
         (Some (u " Dairy cattle ")).
Proof.
  split; [reflexivity|].
  exact (proj1 (find_keywords_ordered_dedup plain_tables [u "dairy"; u "cattle"]
                  (u " Dairy cattle "))
           (u "Dairy   cattle") eq_refl).
Defined.

(** ** Strategy 1 *)

Section LabeledFields.

Variable U : unicode_tables.

Lemma describe_fresh name d :
  describe {| Project_Name := name; Project_Description := None |} d
  = {| Project_Name := name; Project_Description := d |}.
Proof. destruct d; reflexivity. Qed.

Lemma s1_step_name line following st :
  is_name_line U line = true ->
  s1_step U line following st
  = (close_current st,
     Some {| Project_Name := label_value line; Project_Description := None |}).
Proof. unfold s1_step, is_name_line. now intros ->. Qed.

Lemma s1_step_description line following projects p :
  is_description_line U line = true ->
  s1_step U line following (projects, Some p)
  = (projects,
     Some {| Project_Name := Project_Name p;
             Project_Description :=
               Some (continuation U (label_value line) following) |}).
Proof.
  unfold s1_step, is_description_line, is_name_line.
  intros H. apply andb_true_iff in H. destruct H as [Hn Hd].
  apply negb_true_iff in Hn. now rewrite Hn, Hd.
Qed.

Lemma s1_step_no_record line following projects :
  is_name_line U line = false ->
  s1_step U line following (projects, None) = (projects, None).
Proof.
  unfold s1_step, is_name_line. intros ->.
  destruct (any_in description_patterns (lower U line)); reflexivity.
Qed.

Lemma s1_step_other line following st :
  is_name_line U line = false -> is_description_line U line = false ->
  s1_step U line following st = st.
Proof.
  unfold s1_step, is_description_line, is_name_line. intros ->. simpl.
  now intros ->.
Qed.

(** The loop, from any state, against the reading without state. *)
Lemma s1_loop_labeled lines : forall projects current,
  close_current (s1_loop U lines (projects, current))
  = projects
      ++ match current with
         | Some p => [describe p (open_description U lines)]
         | None => []
         end
      ++ labeled_records U lines.
Proof.
  induction lines as [|l rest IH]; intros projects current.
  - simpl. destruct current; simpl; [reflexivity | now rewrite app_nil_r].
  - simpl s1_loop. simpl open_description. simpl labeled_records.
    destruct (is_name_line U l) eqn:Hn.
    + rewrite (s1_step_name _ _ _ Hn), IH, describe_fresh.
      unfold close_current. simpl.
      destruct current; simpl; [now rewrite <- app_assoc | reflexivity].
    + destruct (is_description_line U l) eqn:Hd.
      * destruct current as [p|].
        -- rewrite (s1_step_description _ _ _ _ Hd), IH.
           destruct (open_description U rest); reflexivity.
        -- rewrite (s1_step_no_record _ _ _ Hn), IH. reflexivity.
      * rewrite (s1_step_other _ _ _ Hn Hd), IH.
        destruct (open_description U rest); reflexivity.
Qed.

Lemma strategy1_labeled lines : strategy1 U lines = labeled_records U lines.
Proof. unfold strategy1. now rewrite s1_loop_labeled. Qed.

Lemma labeled_records_names lines :
  map Project_Name (labeled_records U lines)
  = map label_value (filter (is_name_line U) lines).
Proof.
  induction lines as [|l rest IH]; simpl; [reflexivity|].
  destruct (is_name_line U l); simpl; now rewrite IH.
Qed.

Lemma labeled_records_skip pre rest :
  Forall (fun l => is_name_line U l = false) pre ->
  labeled_records U (pre ++ rest) = labeled_records U rest.
Proof.
  induction 1 as [|l pre Hl Hpre IH]; simpl; [reflexivity|].
  now rewrite Hl.
Qed.

Lemma startswith_contains p s : startswith s p = true -> contains p s = true.
Proof. intros H. destruct s; simpl in *; now rewrite H. Qed.

Lemma begins_with_any_in patterns s :
  begins_with_any patterns s = true -> any_in patterns s = true.
Proof.
  unfold begins_with_any, any_in. rewrite !existsb_exists.
  intros (p & Hp & H). exists p. split; [exact Hp|].
  now apply startswith_contains.
Qed.

(** The look-ahead: the description, a space and each line up to the first
    stop word. *)
Lemma continuation_until_stop following : forall desc,
  continuation U desc following
  = fold_left (fun d l => if truthy (strip l) then d ++ [SPACE] ++ strip l else d)
      (until_stop U following) desc.
Proof.
  induction following as [|l rest IH]; intros desc; [reflexivity|].
  cbn [continuation until_stop].
  destruct (any_in stop_words (lower U l)); [reflexivity|].
  cbn [fold_left]. apply IH.
Qed.

End LabeledFields.

(** C6, as stated, fails: "Subproject: Alpha" does not begin with a name
    label, yet it starts a record; "In summary: fine" does not begin with a
    description label, yet it starts the description of the open record. *)
Lemma label_prefix_counterexample :
  begins_with_any name_patterns (lower plain_tables (u "Subproject: Alpha")) = false
  /\ strategy1 plain_tables [u "Subproject: Alpha"]
     = [{| Project_Name := u "Alpha"; Project_Description := None |}]
  /\ begins_with_any description_patterns
       (lower plain_tables (u "In summary: fine")) = false
  /\ strategy1 plain_tables [u "Project: A"; u "In summary: fine"]
     = [{| Project_Name := u "A"; Project_Description := Some (u "fine") |}].
Proof. repeat split; vm_compute; reflexivity. Qed.

(** C6, amended. Strategy 1 recognises a label case-insensitively anywhere
    in a line, not only at its start.  Its records are exactly those read
    off the lines: one record per line whose lower-cased text contains a
    name label, named by what follows the first colon, in the order of the
    lines; a line that contains a description label and no name label
    starts description capture for the record that is open.  A line that
    begins with a label is recognised, being a special case. *)
Theorem strategy1_labels_anywhere :
  forall U lines,
    strategy1 U lines = labeled_records U lines
    /\ map Project_Name (strategy1 U lines)
       = map label_value (filter (is_name_line U) lines)
    /\ (forall line,
           begins_with_any name_patterns (lower U line) = true ->
           is_name_line U line = true)
    /\ (forall line following st,
           is_name_line U line = true ->
           s1_step U line following st
           = (close_current st,
              Some {| Project_Name := label_value line;
                      Project_Description := None |}))
    /\ (forall line following projects p,
           is_description_line U line = true ->
           s1_step U line following (projects, Some p)
           = (projects,
              Some {| Project_Name := Project_Name p;
                      Project_Description :=
                        Some (continuation U (label_value line) following) |}))
    /\ (forall line following st,
           is_name_line U line = false -> is_description_line U line = false ->
           s1_step U line following st = st)
    /\ is_name_line U (u "PROJECT NAME: Dairy") = true
    /\ is_description_line U (u "Summary: milk") = true.
Proof.
  intros U lines.
  split; [apply strategy1_labeled|].
  split; [rewrite strategy1_labeled; apply labeled_records_names|].
  split; [intros line; apply begins_with_any_in|].
  split; [intros; now apply s1_step_name|].
  split; [intros; now apply s1_step_description|].
  split; [intros; now apply s1_step_other|].
  split; vm_compute; reflexivity.
Qed.

Lemma strategy1_labels_anywhere_witness :
  is_name_line plain_tables (u "My Project: Barn") = true
  /\ s1_step plain_tables (u "My Project: Barn") [] ([], None)
     = ([], Some {| Project_Name := u "Barn"; Project_Description := None |}).
Proof.
  split; [vm_compute; reflexivity|].
  exact (proj1 (proj2 (proj2 (proj2
           (strategy1_labels_anywhere plain_tables [u "My Project: Barn"]))))
           (u "My Project: Barn") [] ([], None) eq_refl).
Defined.

(** C7, on the code. The look-ahead appends every line up to the first
    one that holds "project:", "title:", "budget:", "cost:" or "date:", and
    stops at no other label.  A following line "Project Name: B" holds none
    of them, so it is appended to the description of record A, and then
    starts record B as well. *)
Theorem description_swallows_name_line :
  forall U,
    (forall desc following,
        continuation U desc following
        = fold_left
            (fun d l => if truthy (strip l) then d ++ [SPACE] ++ strip l else d)
            (until_stop U following) desc)
    /\ is_name_line U (u "Project Name: B") = true
    /\ any_in stop_words (lower U (u "Project Name: B")) = false
    /\ strategy1 U [u "Project: A"; u "Description: d"; u "Project Name: B"]
       = [{| Project_Name := u "A";
             Project_Description := Some (u "d Project Name: B") |};
          {| Project_Name := u "B"; Project_Description := None |}].
Proof.
  intros U. split; [intros; apply continuation_until_stop|].
  repeat split; vm_compute; reflexivity.
Qed.

(** C10. Lines that come before the first name line leave no trace in
    what Strategy 1 returns: a description line among them creates no
    record, and the records are those of the remaining lines alone, so its
    text is in no description. *)
Theorem description_before_name_discarded :
  forall U pre rest,
    Forall (fun l => is_name_line U l = false) pre ->
    strategy1 U pre = []
    /\ s1_loop U pre ([], None) = ([], None)
    /\ strategy1 U (pre ++ rest) = strategy1 U rest.
Proof.
  intros U pre rest Hpre.
  split; [|split].
  - rewrite strategy1_labeled, <- (app_nil_r pre).
    now rewrite labeled_records_skip.
  - induction Hpre as [|l pre Hl Hpre IH]; [reflexivity|].
    simpl. now rewrite (s1_step_no_record _ _ _ _ Hl).
  - rewrite !strategy1_labeled. now apply labeled_records_skip.
Qed.

Lemma description_before_name_discarded_witness :
  Forall (fun l => is_name_line plain_tables l = false)
    [u "Description: orphan text"; u "more of it"]
  /\ strategy1 plain_tables
       ([u "Description: orphan text"; u "more of it"] ++ [u "Project: A"])
     = strategy1 plain_tables [u "Project: A"].
Proof.
  assert (H : Forall (fun l => is_name_line plain_tables l = false)
                [u "Description: orphan text"; u "more of it"])
    by (repeat constructor).
  split; [exact H|].
  exact (proj2 (proj2 (description_before_name_discarded plain_tables
                         [u "Description: orphan text"; u "more of it"]
                         [u "Project: A"] H))).
Defined.

(** ** The fallback chain *)

Lemma lstrip_all_space s : all_space s -> lstrip s = [].
Proof.
  induction 1 as [|c s Hc Hs IH]; simpl; [reflexivity|].
  now rewrite Hc.
Qed.

Lemma strip_all_space s : all_space s -> strip s = [].
Proof. intros H. unfold strip. now rewrite lstrip_all_space. Qed.

Lemma split_on_all_space sep s :
  all_space s -> Forall all_space (split_on sep s).
Proof.
  induction 1 as [|c s Hc Hs IH]; simpl.
  - repeat constructor.
  - destruct (c =? sep).
    + constructor; [constructor | exact IH].
    + destruct (split_on sep s) as [|f fs].
      * repeat constructor. exact Hc.
      * inversion IH; subst. constructor; [now constructor | assumption].
Qed.

Lemma document_lines_blank text : all_space text -> document_lines text = [].
Proof.
  intros H. unfold document_lines.
  rewrite (filter_none_on (fun line => truthy (strip line))); [reflexivity|].
  eapply Forall_impl; [|apply (split_on_all_space NEWLINE _ H)].
  intros line Hl. simpl. now rewrite strip_all_space.
Qed.

Section Fallback.

Variable U : unicode_tables.

Lemma parse_blank text pdf_filename :
  all_space text ->
  parse_pdf_to_dataframe U text pdf_filename
  = ([fallback_record text pdf_filename],
     [msg_alternative pdf_filename; msg_content pdf_filename]).
Proof.
  intros H. unfold parse_pdf_to_dataframe.
  rewrite (document_lines_blank _ H). reflexivity.
Qed.

Lemma parse_strategy1 text pdf_filename :
  strategy1 U (document_lines text) <> [] ->
  parse_pdf_to_dataframe U text pdf_filename
  = (strategy1 U (document_lines text), []).
Proof.
  intros H. unfold parse_pdf_to_dataframe.
  destruct (strategy1 U (document_lines text)); [contradiction | reflexivity].
Qed.

Lemma parse_strategy2 text pdf_filename :
  strategy1 U (document_lines text) = [] ->
  strategy2 U (document_lines text) <> [] ->
  parse_pdf_to_dataframe U text pdf_filename
  = (strategy2 U (document_lines text), [msg_alternative pdf_filename]).
Proof.
  intros H1 H2. unfold parse_pdf_to_dataframe. rewrite H1.
  destruct (strategy2 U (document_lines text)); [contradiction | reflexivity].
Qed.

Lemma msg_distinct pdf_filename :
  msg_alternative pdf_filename <> msg_content pdf_filename.
Proof.
  intros E. apply (f_equal (hd 0)) in E. vm_compute in E. discriminate.
Qed.

(** Which strategies were entered, read from what was printed. *)
Lemma parse_entered text pdf_filename :
  (In (msg_alternative pdf_filename)
      (snd (parse_pdf_to_dataframe U text pdf_filename)) ->
   strategy1 U (document_lines text) = [])
  /\ (In (msg_content pdf_filename)
         (snd (parse_pdf_to_dataframe U text pdf_filename)) ->
      strategy1 U (document_lines text) = []
      /\ strategy2 U (document_lines text) = []).
Proof.
  unfold parse_pdf_to_dataframe.
  destruct (strategy1 U (document_lines text)) as [|p1 l1].
  - destruct (strategy2 U (document_lines text)) as [|p2 l2]; simpl.
    + tauto.
    + split; [tauto|].
      intros [E | []]. now apply msg_distinct in E.
  - simpl. tauto.
Qed.

End Fallback.

(** C1, as stated, fails: on the empty text and on a text of blanks
    [parse_pdf_to_dataframe] returns one record, the fallback. *)
Lemma parse_empty_counterexample :
  fst (parse_pdf_to_dataframe plain_tables [] (u "report.pdf"))
  = [{| Project_Name := u "Full Document Analysis - report.pdf";
        Project_Description := Some [] |}]
  /\ fst (parse_pdf_to_dataframe plain_tables [32; 10; 9; 32] (u "report.pdf"))
     = [{| Project_Name := u "Full Document Analysis - report.pdf";
           Project_Description := Some [32; 10; 9; 32] |}].
Proof. split; vm_compute; reflexivity. Qed.

(** C1, amended. For a text that is empty or holds only whitespace,
    [parse_pdf_to_dataframe] finds no lines, enters Strategy 2 and Strategy
    3 in vain and returns exactly one record, the fallback, whose
    description is the first 2000 characters of the text.  It is the caller
    [process_single_pdf] that refuses such a text before extraction: it
    returns without a record. *)
Theorem blank_text_fallback_and_gate :
  forall U text pdf_filename,
    all_space text ->
    document_lines text = []
    /\ parse_pdf_to_dataframe U text pdf_filename
       = ([{| Project_Name := u "Full Document Analysis - " ++ pdf_filename;
              Project_Description := Some (firstn 2000 text) |}],
          [msg_alternative pdf_filename; msg_content pdf_filename])
    /\ (forall keywords, process_single_pdf U keywords text pdf_filename = None).
Proof.
  intros U text pdf_filename H.
  split; [now apply document_lines_blank|].
  split; [now apply parse_blank|].
  intros keywords. unfold process_single_pdf.
  now rewrite (strip_all_space _ H).
Qed.

Lemma blank_text_fallback_and_gate_witness :
  all_space [32; 10; 9; 32]
  /\ process_single_pdf plain_tables [u "dairy"] [32; 10; 9; 32] (u "report.pdf")
     = None.
Proof.
  assert (H : all_space [32; 10; 9; 32]) by (repeat constructor).
  split; [exact H|].
  exact (proj2 (proj2 (blank_text_fallback_and_gate plain_tables
                         [32; 10; 9; 32] (u "report.pdf") H))
           [u "dairy"]).
Defined.

(** C2. When Strategy 1 produces at least one record, the result is
    Strategy 1's records and nothing was printed: neither Strategy 2 nor
    Strategy 3 was entered.  In general a strategy is entered only when all
    earlier ones produced no record: the line Strategy 2 prints implies
    that Strategy 1 found nothing, the line Strategy 3 prints implies that
    Strategies 1 and 2 found nothing.  A text with a table-like header and
    with "Project:" and "Description:" labels is handled by Strategy 1. *)
Theorem strategy_precedence :
  forall U text pdf_filename,
    strategy1 U (document_lines text) <> [] ->
    parse_pdf_to_dataframe U text pdf_filename
    = (strategy1 U (document_lines text), [])
    /\ (forall text',
           (In (msg_alternative pdf_filename)
               (snd (parse_pdf_to_dataframe U text' pdf_filename)) ->
            strategy1 U (document_lines text') = [])
           /\ (In (msg_content pdf_filename)
                  (snd (parse_pdf_to_dataframe U text' pdf_filename)) ->
               strategy1 U (document_lines text') = []
               /\ strategy2 U (document_lines text') = []))
    /\ (forall text',
           strategy1 U (document_lines text') = [] ->
           strategy2 U (document_lines text') <> [] ->
           parse_pdf_to_dataframe U text' pdf_filename
           = (strategy2 U (document_lines text'), [msg_alternative pdf_filename]))
    /\ parse_pdf_to_dataframe U
         (join [NEWLINE]
            [u "Project Name   Details"; u "alpha first row";
             u "Project: Dairy"; u "Description: cows"])
         pdf_filename
       = ([{| Project_Name := u "Dairy";
              Project_Description := Some (u "cows") |}], []).
Proof.
  intros U text pdf_filename H.
  split; [now apply parse_strategy1|].
  split; [intros text'; apply parse_entered|].
  split; [intros text'; apply parse_strategy2|].
  vm_compute. reflexivity.
Qed.

Lemma strategy_precedence_witness :
  strategy1 plain_tables
    (document_lines (u "Project: Dairy Farm")) <> []
  /\ parse_pdf_to_dataframe plain_tables (u "Project: Dairy Farm") (u "a.pdf")
     = (strategy1 plain_tables (document_lines (u "Project: Dairy Farm")), []).
Proof.
  assert (H : strategy1 plain_tables
                (document_lines (u "Project: Dairy Farm")) <> [])
    by (vm_compute; discriminate).
  split; [exact H|].
  exact (proj1 (strategy_precedence plain_tables (u "Project: Dairy Farm")
                  (u "a.pdf") H)).
Defined.

(** ** Strategy 3 *)

Lemma s3_loop_app l1 : forall l2 st,
  s3_loop (l1 ++ l2) st = s3_loop l2 (s3_loop l1 st).
Proof.
  induction l1 as [|l l1 IH]; intros l2 st; simpl; [reflexivity|].
  apply IH.
Qed.

Lemma content_chunks_flush lines :
  content_chunks lines = flush (s3_loop lines ([], [])).
Proof.
  unfold content_chunks, flush.
  destruct (s3_loop lines ([], [])) as [chunks current]. reflexivity.
Qed.

Lemma s3_step_short line st :
  (length line <= 50)%nat -> s3_step line st = (flush st, []).
Proof.
  intros H. unfold s3_step, flush. destruct st as [chunks current].
  apply Nat.ltb_ge in H. rewrite H. simpl.
  destruct current; reflexivity.
Qed.

Lemma s3_step_substantial line chunks current :
  substantial line -> s3_step line (chunks, current) = (chunks, current ++ [line]).
Proof.
  unfold substantial, s3_step. intros H. apply Nat.ltb_lt in H. now rewrite H.
Qed.

Lemma flush_prefix chunks current :
  flush (chunks, current) = chunks ++ flush ([], current).
Proof.
  unfold flush. simpl. destruct current; [now rewrite app_nil_r|].
  destruct (100 <? _)%nat; [reflexivity | now rewrite app_nil_r].
Qed.

Lemma s3_loop_prefix lines : forall chunks current,
  flush (s3_loop lines (chunks, current))
  = chunks ++ flush (s3_loop lines ([], current)).
Proof.
  induction lines as [|l lines IH]; intros chunks current.
  - apply flush_prefix.
  - cbn [s3_loop].
    destruct (Nat.ltb_spec 50 (length l)) as [H|H].
    + rewrite !(s3_step_substantial _ _ _ H). apply IH.
    + rewrite !(s3_step_short _ _ H).
      rewrite IH, (IH (flush ([], current))), (flush_prefix chunks current).
      now rewrite app_assoc.
Qed.

Lemma content_chunks_split l1 line l2 :
  (length line <= 50)%nat ->
  content_chunks (l1 ++ line :: l2) = content_chunks l1 ++ content_chunks l2.
Proof.
  intros H. rewrite !content_chunks_flush, s3_loop_app. cbn [s3_loop].
  rewrite (s3_step_short _ _ H). apply s3_loop_prefix.
Qed.

Lemma s3_loop_run run : forall chunks current,
  Forall substantial run ->
  s3_loop run (chunks, current) = (chunks, current ++ run).
Proof.
  induction run as [|l run IH]; intros chunks current H.
  - simpl. now rewrite app_nil_r.
  - inversion H; subst.
    change (s3_loop (l :: run) (chunks, current))
      with (s3_loop run (s3_step l (chunks, current))).
    rewrite s3_step_substantial by assumption.
    rewrite IH by assumption. now rewrite <- app_assoc.
Qed.

Lemma content_chunks_run run :
  run <> [] -> Forall substantial run ->
  content_chunks run
  = if (100 <? length (join [SPACE] run))%nat then [join [SPACE] run] else [].
Proof.
  intros Hne H. rewrite content_chunks_flush, (s3_loop_run _ _ _ H).
  unfold flush. simpl. destruct run; [contradiction | reflexivity].
Qed.

Lemma enumerate_from_snd {A : Type} (l : list A) : forall i,
  map snd (enumerate_from i l) = l.
Proof.
  induction l as [|x l IH]; intros i; simpl; [reflexivity|].
  now rewrite IH.
Qed.

Lemma strategy3_descriptions lines :
  map Project_Description (strategy3 lines)
  = map Some (firstn 10 (content_chunks lines)).
Proof.
  unfold strategy3. rewrite map_map. simpl.
  rewrite <- (enumerate_from_snd (firstn 10 (content_chunks lines)) 0) at 2.
  now rewrite map_map.
Qed.

Lemma strategy3_length lines : (length (strategy3 lines) <= 10)%nat.
Proof.
  rewrite <- (length_map Project_Description), strategy3_descriptions, length_map.
  apply firstn_le_length.
Qed.

(** C9. End to end, with the keyword sequence "dairy", "cattle" and the
    lines "Project: Dairy Farm", "Description: Improving cattle health.":
    extraction gives exactly one record, named "Dairy Farm" and described
    "Improving cattle health."; the query finds exactly "dairy" in the name
    and exactly "cattle" in the description, and the frame carries them. *)
Theorem end_to_end_dairy :
  forall U pdf_filename,
    let keywords := [u "dairy"; u "cattle"] in
    let lines := [u "Project: Dairy Farm";
                  u "Description: Improving cattle health."] in
    let record := {| Project_Name := u "Dairy Farm";
                     Project_Description := Some (u "Improving cattle health.") |} in
    document_lines (join [NEWLINE] lines) = lines
    /\ strategy1 U lines = [record]
    /\ parse_pdf_to_dataframe U (join [NEWLINE] lines) pdf_filename = ([record], [])
    /\ find_keywords_in_text U keywords (Some (Project_Name record)) = [u "dairy"]
    /\ find_keywords_in_text U keywords (Project_Description record) = [u "cattle"]
    /\ process_single_pdf U keywords (join [NEWLINE] lines) pdf_filename
       = Some (WithKeywords
                 [{| source := record;
                     Keywords_Found_in_Project_Name := u "dairy";
                     Keywords_Found_in_Project_Description := u "cattle" |}]).
Proof.
  intros U pdf_filename. repeat split; vm_compute; reflexivity.
Qed.

(** ** The sample table *)

Lemma sample_tables_full : decomposition_full sample_tables.
Proof.
  intros c d. unfold decomp.
  destruct (is_ascii c) eqn:Hc.
  - intros [<- | []]. now rewrite Hc.
  - simpl decomposition.
    destruct (c =? 233) eqn:E1; [intros [<- | [<- | []]]; reflexivity|].
    destruct (c =? 7841) eqn:E2; [intros [<- | [<- | []]]; reflexivity|].
    destruct (c =? 168) eqn:E3; [intros [<- | [<- | []]]; reflexivity|].
    destruct ((c =? 160) || (c =? 8199) || (c =? 8201) || (c =? 8202)) eqn:E4;
      [intros [<- | []]; reflexivity|].
    intros [<- | []]. rewrite Hc. simpl. now rewrite E1, E2, E3, E4.
Qed.

Example nfkd_reorders_marks :
  nfkd sample_tables [7841; 769; 233] = [97; 803; 769; 101; 769]
  /\ nfkd sample_tables [97; 769; 803] = [97; 803; 769].
Proof. split; vm_compute; reflexivity. Qed.

Example normalize_mixed_spaces :
  _normalize_text sample_tables
    (Some ([160; 8201] ++ u "Caf" ++ [233; 8199; 32; 10; 168] ++ u "au  lait" ++ [8202]))
  = u "Cafe" ++ [769; 32; 776] ++ u "au lait".
Proof. vm_compute. reflexivity. Qed.

Lemma normalize_text_idempotent_witness :
  decomposition_full sample_tables
  /\ _normalize_text sample_tables
       (Some (_normalize_text sample_tables
                (Some ([160; 8201] ++ u "Caf" ++ [233; 8199; 32; 10; 168]
                         ++ u "au  lait" ++ [8202]))))
     = _normalize_text sample_tables
         (Some ([160; 8201] ++ u "Caf" ++ [233; 8199; 32; 10; 168]
                  ++ u "au  lait" ++ [8202])).
Proof.
  split; [exact sample_tables_full|].
  exact (normalize_text_idempotent sample_tables sample_tables_full
           (Some ([160; 8201] ++ u "Caf" ++ [233; 8199; 32; 10; 168]
                    ++ u "au  lait" ++ [8202]))).
Defined.

(** ** Lines of a document *)

Lemma split_on_nonempty sep s : split_on sep s <> [].
Proof.
  destruct s as [|c s]; simpl; [discriminate|].
  destruct (c =? sep); [discriminate|].
  destruct (split_on sep s); discriminate.
Qed.

Lemma split_on_no_sep sep s : Forall (fun f => ~ In sep f) (split_on sep s).
Proof.
  induction s as [|c s IH]; simpl.
  - repeat constructor. intros [].
  - destruct (N.eqb_spec c sep) as [E|E].
    + constructor; [intros [] | exact IH].
    + destruct (split_on sep s) as [|f fs]; [repeat constructor|].
      * intros [H|[]]. now apply E.
      * inversion IH; subst. constructor; [|assumption].
        intros [H|H]; [now apply E | contradiction].
Qed.

Lemma split_on_app sep a b :
  split_on sep (a ++ sep :: b) = split_on sep a ++ split_on sep b.
Proof.
  induction a as [|c a IH]; simpl.
  - now rewrite N.eqb_refl.
  - destruct (c =? sep); [now rewrite IH|].
    rewrite IH. pose proof (split_on_nonempty sep a) as Hne.
    destruct (split_on sep a); [contradiction | reflexivity].
Qed.

Lemma split_on_single sep l : ~ In sep l -> split_on sep l = [l].
Proof.
  induction l as [|c l IH]; simpl; [reflexivity|].
  intros H. destruct (N.eqb_spec c sep) as [E|E]; [exfalso; now apply H; left|].
  rewrite IH; [reflexivity|]. intros Hin. apply H. now right.
Qed.

Lemma split_on_join sep lines :
  lines <> [] -> Forall (fun l => ~ In sep l) lines ->
  split_on sep (join [sep] lines) = lines.
Proof.
  intros Hne H. induction H as [|l lines Hl Hls IH]; [contradiction|].
  destruct lines as [|l2 lines].
  - simpl. now apply split_on_single.
  - change (join [sep] (l :: l2 :: lines))
      with (l ++ sep :: join [sep] (l2 :: lines)).
    rewrite split_on_app, (split_on_single _ _ Hl), IH by discriminate.
    reflexivity.
Qed.

Lemma document_lines_app a b :
  document_lines (a ++ NEWLINE :: b) = document_lines a ++ document_lines b.
Proof.
  unfold document_lines. now rewrite split_on_app, filter_app, map_app.
Qed.

Lemma extract_text_flat_map ps : forall text,
  fold_left (fun text page => text ++ page ++ [NEWLINE]) ps text
  = text ++ flat_map (fun page => page ++ [NEWLINE]) ps.
Proof.
  induction ps as [|p ps IH]; intros text; simpl.
  - now rewrite app_nil_r.
  - rewrite IH. now rewrite <- !app_assoc.
Qed.

(** X1. Every line of a document is non-empty, holds no newline and has
    no whitespace at either end. *)
Theorem document_lines_clean :
  forall pdf_text line,
    In line (document_lines pdf_text) ->
    line <> [] /\ ~ In NEWLINE line /\ strip line = line
    /\ starts_clean line.
Proof.
  intros pdf_text line H. unfold document_lines in H.
  apply in_map_iff in H. destruct H as (f & <- & Hf).
  apply filter_In in Hf. destruct Hf as [Hf Ht].
  split; [destruct (strip f); [discriminate | discriminate]|].
  split.
  - pose proof (split_on_no_sep NEWLINE pdf_text) as Hs.
    rewrite Forall_forall in Hs. specialize (Hs f Hf).
    assert (Hall : Forall (fun c => c <> NEWLINE) f).
    { apply Forall_forall. intros c Hc ->. now apply Hs. }
    apply (Forall_strip _ _) in Hall. rewrite Forall_forall in Hall.
    intros Hin. now apply (Hall NEWLINE Hin).
  - split; [apply strip_idem|].
    unfold strip. apply rstrip_clean, lstrip_clean.
Qed.

Lemma document_lines_clean_witness :
  In (u "b c") (document_lines (u " a
  b c  
"))
  /\ strip (u "b c") = u "b c".
Proof.
  assert (H : In (u "b c") (document_lines (u " a
  b c  
"))) by (vm_compute; auto).
  split; [exact H|].
  exact (proj1 (proj2 (proj2 (document_lines_clean _ _ H)))).
Defined.

(** X2. Round trip: lines that are non-empty, newline-free and trimmed
    come back unchanged when they are joined with newlines and split into
    document lines again. *)
Theorem document_lines_join :
  forall lines,
    Forall (fun l => l <> [] /\ ~ In NEWLINE l /\ strip l = l) lines ->
    document_lines (join [NEWLINE] lines) = lines.
Proof.
  intros lines H. destruct lines as [|l0 lines0]; [reflexivity|].
  unfold document_lines. rewrite split_on_join.
  - induction H as [|l lines (Hne & _ & Hs) Hls IH]; [reflexivity|].
    simpl. rewrite Hs. destruct l; [contradiction|]. simpl.
    rewrite <- Hs at 2. f_equal. exact IH.
  - discriminate.
  - eapply Forall_impl; [|exact H]. simpl. tauto.
Qed.

Lemma document_lines_join_witness :
  Forall (fun l => l <> [] /\ ~ In NEWLINE l /\ strip l = l)
    [u "Project: A"; u "two words"]
  /\ document_lines (join [NEWLINE] [u "Project: A"; u "two words"])
     = [u "Project: A"; u "two words"].
Proof.
  assert (H : Forall (fun l => l <> [] /\ ~ In NEWLINE l /\ strip l = l)
                [u "Project: A"; u "two words"]).
  { repeat constructor; try discriminate;
      vm_compute; intuition discriminate. }
  split; [exact H|].
  exact (document_lines_join _ H).
Defined.

(** X3. The lines of the text read from a PDF are the lines of its pages,
    page after page: no line runs over a page break.  A PDF that cannot be
    read gives the empty text. *)
Theorem extracted_lines_by_page :
  forall pages,
    document_lines (extract_text_from_pdf (Some pages))
    = flat_map document_lines pages
    /\ extract_text_from_pdf None = [].
Proof.
  intros pages. split; [|reflexivity].
  unfold extract_text_from_pdf. rewrite extract_text_flat_map. simpl.
  induction pages as [|p ps IH]; [reflexivity|].
  simpl. rewrite <- app_assoc. simpl.
  now rewrite document_lines_app, IH.
Qed.

(** ** The shape of normalised text *)

Lemma tidy_spaces s : forall b,
  tidy b s -> Forall (fun c => isspace c = true -> c = SPACE) s.
Proof.
  induction s as [|c s IH]; intros b H; [constructor|].
  simpl in H. destruct (isspace c) eqn:E.
  - destruct H as (-> & _ & H).
    constructor; [intros _; reflexivity | now apply IH with true].
  - constructor; [intros E'; congruence | now apply IH with false].
Qed.

Lemma tidy_tail c s b : tidy b (c :: s) -> tidy (isspace c) s.
Proof.
  simpl. destruct (isspace c); [intros (_ & _ & H); exact H | trivial].
Qed.

Lemma tidy_no_double pre : forall b c d post,
  tidy b (pre ++ c :: d :: post) -> isspace c = true -> isspace d = false.
Proof.
  induction pre as [|x pre IH]; intros b c d post H Hc.
  - apply tidy_tail in H. rewrite Hc in H. simpl in H.
    destruct (isspace d); [destruct H as (_ & H & _); discriminate | reflexivity].
  - apply tidy_tail in H. now apply IH with (1 := H).
Qed.

Lemma rstrip_fixed_last pre : forall c,
  rstrip (pre ++ [c]) = pre ++ [c] -> isspace c = false.
Proof.
  induction pre as [|x pre IH]; intros c.
  - simpl. destruct (isspace c); [discriminate | reflexivity].
  - simpl. destruct (rstrip (pre ++ [c])) as [|y r] eqn:E.
    + destruct (isspace x); intros H; [discriminate|].
      injection H as H. destruct pre; discriminate.
    + intros H. injection H as H. apply IH. now rewrite E.
Qed.

(** X4. Normalised text has no whitespace at either end, its only
    whitespace character is the ordinary space, and no two of them are
    adjacent; the missing value normalises to the empty string. *)
Theorem normalized_shape :
  forall U x,
    starts_clean (_normalize_text U x)
    /\ (forall pre c, _normalize_text U x = pre ++ [c] -> isspace c = false)
    /\ (forall c, In c (_normalize_text U x) -> isspace c = true -> c = SPACE)
    /\ (forall pre c d post,
           _normalize_text U x = pre ++ c :: d :: post ->
           isspace c = true -> isspace d = false)
    /\ _normalize_text U None = [].
Proof.
  intros U x.
  assert (Ht : tidy false (_normalize_text U x)).
  { destruct x as [t|]; simpl; [|exact I].
    unfold strip. apply tidy_rstrip, (tidy_lstrip _ false), tidy_sub_ws. }
  split.
  { destruct x as [t|]; simpl; [|exact I].
    unfold strip. apply rstrip_clean, lstrip_clean. }
  split.
  { intros pre c E. apply (rstrip_fixed_last pre). rewrite <- E.
    destruct x as [t|]; simpl; [|reflexivity].
    unfold strip. apply rstrip_idem. }
  split.
  { intros c Hc. pose proof (tidy_spaces _ _ Ht) as H.
    rewrite Forall_forall in H. now apply H. }
  split; [|reflexivity].
  intros pre c d post E. rewrite E in Ht. now apply tidy_no_double with (1 := Ht).
Qed.

Lemma normalized_shape_witness :
  _normalize_text plain_tables (Some (u "  a   b ")) = [97] ++ [32; 98] ++ []
  /\ isspace 98 = false.
Proof.
  split; [reflexivity|].
  exact (proj1 (proj2 (proj2 (proj2
           (normalized_shape plain_tables (Some (u "  a   b ")))))) [97] 32 98 []
           eq_refl eq_refl).
Defined.

(** ** Matching does not see ASCII case *)

Ltac decide_bounds :=
  repeat match goal with
         | |- context [?a <=? ?b] => destruct (N.leb_spec a b); try lia
         | |- context [?a <? ?b] => destruct (N.ltb_spec a b); try lia
         | |- context [?a =? ?b] => destruct (N.eqb_spec a b); try lia
         end.

Lemma ascii_lower_cases c :
  ascii_lower c = c \/ (65 <= c <= 90 /\ ascii_lower c = c + 32).
Proof.
  unfold ascii_lower. decide_bounds; simpl; (left; reflexivity) || (right; lia).
Qed.

Lemma letter_not_space c : 65 <= c <= 122 -> isspace c = false.
Proof. intros H. unfold isspace. decide_bounds; reflexivity. Qed.

Lemma letter_ascii c : 65 <= c <= 122 -> is_ascii c = true.
Proof. intros H. unfold is_ascii. decide_bounds; reflexivity. Qed.

Lemma letter_word c :
  65 <= c <= 90 \/ 97 <= c <= 122 -> ascii_isword c = true.
Proof. intros H. unfold ascii_isword. decide_bounds; reflexivity. Qed.

(** Up to case means: equal, or an ASCII letter and its other case. *)
Lemma up_to_case_cases c c' :
  up_to_case c c' ->
  c = c' \/ (65 <= c <= 90 /\ c' = c + 32) \/ (65 <= c' <= 90 /\ c = c' + 32).
Proof.
  unfold up_to_case. intros H.
  destruct (ascii_lower_cases c) as [E | [Hc E]],
           (ascii_lower_cases c') as [E' | [Hc' E']];
    rewrite E, E' in H; try (left; lia); [right; right | right; left]; lia.
Qed.

Lemma up_to_case_refl c : up_to_case c c.
Proof. reflexivity. Qed.

Lemma up_to_case_isspace c c' : up_to_case c c' -> isspace c = isspace c'.
Proof.
  intros H. destruct (up_to_case_cases _ _ H) as [-> | [[Hc ->] | [Hc ->]]];
    [reflexivity | |]; rewrite !letter_not_space by lia; reflexivity.
Qed.

Lemma up_to_case_ascii c c' : up_to_case c c' -> is_ascii c = is_ascii c'.
Proof.
  intros H. destruct (up_to_case_cases _ _ H) as [-> | [[Hc ->] | [Hc ->]]];
    [reflexivity | |]; rewrite !letter_ascii by lia; reflexivity.
Qed.

Lemma up_to_case_split c c' :
  up_to_case c c' -> c = c' \/ (is_ascii c = true /\ is_ascii c' = true).
Proof.
  intros H. destruct (up_to_case_cases _ _ H) as [-> | [[Hc ->] | [Hc ->]]];
    [now left | |]; right; split; apply letter_ascii; lia.
Qed.

Lemma up_to_case_lower c : up_to_case (ascii_lower c) c.
Proof.
  unfold up_to_case. destruct (ascii_lower_cases c) as [E | [Hc E]];
    rewrite E; [exact E|].
  unfold ascii_lower. decide_bounds; reflexivity.
Qed.

Lemma map_lower_up_to_case s : forall t,
  map ascii_lower s = map ascii_lower t <-> Forall2 up_to_case s t.
Proof.
  induction s as [|c s IH]; intros [|d t]; simpl; split; intros H;
    try discriminate; try constructor; try (inversion H; fail).
  - now injection H.
  - apply IH. now injection H.
  - inversion H; subst. f_equal; [assumption | now apply IH].
Qed.

Section CaseBlind.

Variable U : unicode_tables.

Lemma up_to_case_ccc c c' : up_to_case c c' -> ccc U c = ccc U c'.
Proof.
  intros H. destruct (up_to_case_split _ _ H) as [-> | [Hc Hc']];
    [reflexivity|]. unfold ccc. now rewrite Hc, Hc'.
Qed.

Lemma up_to_case_isword c c' : up_to_case c c' -> isword U c = isword U c'.
Proof.
  intros H. destruct (up_to_case_cases _ _ H) as [-> | [[Hc ->] | [Hc ->]]];
    [reflexivity | |]; unfold isword;
    rewrite !letter_ascii, !letter_word by lia; reflexivity.
Qed.

Lemma up_to_case_decomp c c' :
  up_to_case c c' -> Forall2 up_to_case (decomp U c) (decomp U c').
Proof.
  intros H. destruct (up_to_case_split _ _ H) as [-> | [Hc Hc']].
  - induction (decomp U c'); constructor; [reflexivity | assumption].
  - unfold decomp. rewrite Hc, Hc'. now repeat constructor.
Qed.

Lemma up_to_case_ci_eq k d d' :
  is_ascii k = true -> up_to_case d d' -> ci_eq U k d = ci_eq U k d'.
Proof.
  intros Hk H. unfold ci_eq. rewrite Hk, (up_to_case_ascii _ _ H). simpl.
  destruct (is_ascii d') eqn:E; [now rewrite H|].
  destruct (up_to_case_split _ _ H) as [-> | [_ Hd']]; [reflexivity | congruence].
Qed.

Lemma flat_map_decomp_up_to_case s t :
  Forall2 up_to_case s t ->
  Forall2 up_to_case (flat_map (decomp U) s) (flat_map (decomp U) t).
Proof.
  induction 1 as [|c d s t Hc Hs IH]; simpl; [constructor|].
  apply Forall2_app; [now apply up_to_case_decomp | exact IH].
Qed.

Lemma reorder_insert_up_to_case c d l m :
  up_to_case c d -> Forall2 up_to_case l m ->
  Forall2 up_to_case (reorder_insert U c l) (reorder_insert U d m).
Proof.
  intros Hc. induction 1 as [|x y l m Hx Hl IH]; simpl.
  - now repeat constructor.
  - rewrite (up_to_case_ccc _ _ Hx), (up_to_case_ccc _ _ Hc).
    destruct ((0 <? ccc U y) && (ccc U y <? ccc U d));
      repeat constructor; assumption.
Qed.

Lemma canonical_order_up_to_case s t :
  Forall2 up_to_case s t ->
  Forall2 up_to_case (canonical_order U s) (canonical_order U t).
Proof.
  induction 1; simpl; [constructor|]. now apply reorder_insert_up_to_case.
Qed.

End CaseBlind.

Lemma replace_up_to_case old s t :
  is_ascii old = false -> Forall2 up_to_case s t ->
  Forall2 up_to_case (replace old SPACE s) (replace old SPACE t).
Proof.
  intros Hold. induction 1 as [|c d s t Hc Hs IH]; simpl; constructor; trivial.
  destruct (up_to_case_split _ _ Hc) as [-> | [Ha Hb]].
  - destruct (d =? old); reflexivity.
  - destruct (N.eqb_spec c old) as [->|_]; [congruence|].
    destruct (N.eqb_spec d old) as [->|_]; [congruence | exact Hc].
Qed.

Lemma sub_ws_up_to_case s t :
  Forall2 up_to_case s t ->
  forall b, Forall2 up_to_case (sub_ws b s) (sub_ws b t).
Proof.
  induction 1 as [|c d s t Hc Hs IH]; intros b; simpl; [constructor|].
  rewrite (up_to_case_isspace _ _ Hc).
  destruct (isspace d); [destruct b|]; try constructor; auto; reflexivity.
Qed.

Lemma lstrip_up_to_case s t :
  Forall2 up_to_case s t -> Forall2 up_to_case (lstrip s) (lstrip t).
Proof.
  induction 1 as [|c d s t Hc Hs IH]; simpl; [constructor|].
  rewrite (up_to_case_isspace _ _ Hc).
  destruct (isspace d); [exact IH | now constructor].
Qed.

Lemma rstrip_up_to_case s t :
  Forall2 up_to_case s t -> Forall2 up_to_case (rstrip s) (rstrip t).
Proof.
  induction 1 as [|c d s t Hc Hs IH]; simpl; [constructor|].
  rewrite (up_to_case_isspace _ _ Hc).
  destruct IH as [|x y l m Hx Hl]; [|repeat constructor; assumption].
  destruct (isspace d); repeat constructor; assumption.
Qed.

Lemma normalize_up_to_case U s t :
  Forall2 up_to_case s t ->
  Forall2 up_to_case (_normalize_text U (Some s)) (_normalize_text U (Some t)).
Proof.
  intros H. simpl. unfold strip, replace_spaces, nfkd.
  apply rstrip_up_to_case, lstrip_up_to_case, sub_ws_up_to_case.
  repeat (apply replace_up_to_case; [reflexivity|]).
  now apply canonical_order_up_to_case, flat_map_decomp_up_to_case.
Qed.

Lemma at_boundary_up_to_case U p p' s t :
  prev_up_to_case p p' -> Forall2 up_to_case s t ->
  at_boundary U p s = at_boundary U p' t.
Proof.
  intros Hp Hs. unfold at_boundary. f_equal.
  - destruct p, p'; simpl in *; try contradiction; [|reflexivity].
    now apply up_to_case_isword.
  - destruct Hs; simpl; [reflexivity | now apply up_to_case_isword].
Qed.

Lemma match_here_up_to_case U pat :
  ascii_pattern pat ->
  forall p p' s t,
    prev_up_to_case p p' -> Forall2 up_to_case s t ->
    match_here U pat p s = match_here U pat p' t.
Proof.
  induction 1 as [|i pat Hi Hpat IH]; intros p p' s t Hp Hs; [reflexivity|].
  destruct i as [|k]; simpl.
  - rewrite (at_boundary_up_to_case U _ _ _ _ Hp Hs).
    f_equal. now apply IH.
  - destruct Hs as [|c d s t Hc Hs]; [reflexivity|].
    rewrite (up_to_case_ci_eq U k c d Hi Hc). f_equal. now apply IH.
Qed.

Lemma search_from_up_to_case U pat s t :
  ascii_pattern pat -> Forall2 up_to_case s t ->
  forall p p', prev_up_to_case p p' ->
    search_from U pat p s = search_from U pat p' t.
Proof.
  intros Hpat. induction 1 as [|c d s t Hc Hs IH]; intros p p' Hp; simpl.
  - f_equal. apply match_here_up_to_case; trivial; constructor.
  - f_equal; [apply match_here_up_to_case; trivial; now constructor|].
    now apply IH.
Qed.

Lemma compile_keyword_ascii kw : ascii_text kw -> ascii_pattern (compile_keyword kw).
Proof.
  intros H. unfold compile_keyword, ascii_pattern.
  constructor; [exact I|]. apply Forall_app. split.
  - apply Forall_map. exact H.
  - repeat constructor.
Qed.

Lemma keyword_matches_up_to_case U kw s t :
  ascii_text kw -> Forall2 up_to_case s t ->
  keyword_matches U kw s = keyword_matches U kw t.
Proof.
  intros Hkw H. unfold keyword_matches, search.
  apply search_from_up_to_case; [now apply compile_keyword_ascii | | exact I].
  now apply normalize_up_to_case.
Qed.

(** X5. Matching does not see the case of ASCII letters in the text: for
    keywords made of ASCII characters, two texts that agree once their
    ASCII letters are lower-cased give the same list of keywords. *)
Theorem find_keywords_case_blind :
  forall U keywords text text',
    Forall ascii_text keywords ->
    map ascii_lower text = map ascii_lower text' ->
    find_keywords_in_text U keywords (Some text)
    = find_keywords_in_text U keywords (Some text').
Proof.
  intros U keywords text text' Hk H.
  rewrite !find_keywords_unfold. f_equal.
  apply filter_ext_in. intros k Hin.
  apply keyword_matches_up_to_case.
  - rewrite Forall_forall in Hk. now apply Hk.
  - now apply map_lower_up_to_case.
Qed.

Lemma find_keywords_case_blind_witness :
  Forall ascii_text [u "dairy"; u "cattle"]
  /\ find_keywords_in_text plain_tables [u "dairy"; u "cattle"]
       (Some (u "DAIRY for Cattle"))
     = find_keywords_in_text plain_tables [u "dairy"; u "cattle"]
         (Some (u "dairy FOR cattle")).
Proof.
  assert (H : Forall ascii_text [u "dairy"; u "cattle"])
    by (repeat constructor).
  split; [exact H|].
  exact (find_keywords_case_blind plain_tables [u "dairy"; u "cattle"]
           (u "DAIRY for Cattle") (u "dairy FOR cattle") H eq_refl).
Defined.

(** ** Keyword cells and the keyword file *)

Lemma join_two_comma a b l : In 44 (join (u ", ") (a :: b :: l)).
Proof.
  change (join (u ", ") (a :: b :: l))
    with (a ++ u ", " ++ join (u ", ") (b :: l)).
  apply in_or_app. right. now left.
Qed.

Lemma join_comma_None l :
  join (u ", ") l = u "None" -> l = [] \/ l = [u "None"].
Proof.
  destruct l as [|a [|b l]]; intros H; [now left | right; simpl in H; now subst|].
  exfalso. pose proof (join_two_comma a b l) as Hin. rewrite H in Hin.
  vm_compute in Hin. intuition discriminate.
Qed.

Section Cells.

Variable U : unicode_tables.

Lemma find_keywords_nan keywords : find_keywords_in_text U keywords None = [].
Proof.
  unfold find_keywords_in_text. simpl. rewrite found_keywords_filter.
  rewrite filter_none; [reflexivity|]. intros k. apply search_keyword_empty.
Qed.

Lemma find_keywords_none_iff keywords text :
  find_keywords_in_text U keywords (Some text) = [] <->
  forall k, In k keywords -> keyword_matches U k text = false.
Proof.
  rewrite find_keywords_unfold. unfold dict_fromkeys. split.
  - intros H k Hk. destruct (keyword_matches U k text) eqn:E; [|reflexivity].
    assert (Hin : In k (dedup_from [] (filter (fun k => keyword_matches U k text)
                                          keywords))).
    { apply dedup_from_In. split; [|intros []]. apply filter_In. now split. }
    rewrite H in Hin. destruct Hin.
  - intros H. rewrite filter_none_on; [reflexivity|].
    apply Forall_forall. exact H.
Qed.

Lemma find_keywords_incl keywords text k :
  In k (find_keywords_in_text U keywords (Some text)) -> In k keywords.
Proof.
  rewrite find_keywords_unfold. unfold dict_fromkeys.
  rewrite dedup_from_In, filter_In. tauto.
Qed.

End Cells.

(** X6. The two states of a keyword cell are told apart: as long as
    "None" itself is not a keyword, the cell reads 'None' exactly when no
    keyword of the sequence matches the text, and otherwise it is the
    matched keywords joined by ", ".  A missing description always reads
    'None'. *)
Theorem keyword_cell_two_states :
  forall U keywords text,
    ~ In (u "None") keywords ->
    (keyword_cell U keywords (Some text) = u "None" <->
     forall k, In k keywords -> keyword_matches U k text = false)
    /\ (keyword_cell U keywords (Some text) <> u "None" ->
        keyword_cell U keywords (Some text)
        = join (u ", ") (find_keywords_in_text U keywords (Some text)))
    /\ keyword_cell U keywords None = u "None".
Proof.
  intros U keywords text Hnone.
  split; [|split].
  - rewrite <- find_keywords_none_iff. unfold keyword_cell.
    destruct (find_keywords_in_text U keywords (Some text)) as [|k found] eqn:E.
    + tauto.
    + split; [|discriminate]. intros H.
      apply join_comma_None in H. destruct H as [H | H]; [discriminate|].
      exfalso. apply Hnone.
      apply (find_keywords_incl U keywords text). rewrite E, H. now left.
  - unfold keyword_cell.
    destruct (find_keywords_in_text U keywords (Some text)); [congruence | reflexivity].
  - unfold keyword_cell. now rewrite find_keywords_nan.
Qed.

Lemma keyword_cell_two_states_witness :
  ~ In (u "None") [u "dairy"; u "cattle"]
  /\ keyword_cell plain_tables [u "dairy"; u "cattle"] None = u "None".
Proof.
  assert (H : ~ In (u "None") [u "dairy"; u "cattle"])
    by (vm_compute; intuition discriminate).
  split; [exact H|].
  exact (proj2 (proj2 (keyword_cell_two_states plain_tables
                         [u "dairy"; u "cattle"] (u "milk") H))).
Defined.

Lemma lower_ascii U s : ascii_text s ->
  forall before, lower_from U before s = map ascii_lower s.
Proof.
  induction 1 as [|c s Hc Hs IH]; intros before; simpl; [reflexivity|].
  now rewrite Hc, IH.
Qed.

Lemma lstrip_map_lower s : lstrip (map ascii_lower s) = map ascii_lower (lstrip s).
Proof.
  induction s as [|c s IH]; simpl; [reflexivity|].
  rewrite (up_to_case_isspace _ _ (up_to_case_lower c)).
  destruct (isspace c); [exact IH | reflexivity].
Qed.

Lemma rstrip_map_lower s : rstrip (map ascii_lower s) = map ascii_lower (rstrip s).
Proof.
  induction s as [|c s IH]; simpl; [reflexivity|].
  rewrite (up_to_case_isspace _ _ (up_to_case_lower c)), IH.
  destruct (rstrip s); [destruct (isspace c)|]; reflexivity.
Qed.

Lemma strip_map_lower s : strip (map ascii_lower s) = map ascii_lower (strip s).
Proof. unfold strip. now rewrite lstrip_map_lower, rstrip_map_lower. Qed.

Lemma ascii_lower_not_N c : ascii_lower c <> 78.
Proof. unfold ascii_lower. decide_bounds; simpl; lia. Qed.

Lemma ascii_lower_ascii c : is_ascii c = true -> is_ascii (ascii_lower c) = true.
Proof. intros H. now rewrite (up_to_case_ascii _ _ (up_to_case_lower c)). Qed.

(** X7. Loading the keyword file: a missing file gives no keyword.  From
    a file of ASCII lines the keywords are the non-blank lines, in order,
    trimmed and lower-cased, whatever the Unicode tables; each keyword is
    non-empty, has no surrounding whitespace and no capital letter, so
    "None" is never a keyword. *)
Theorem load_keywords_ascii :
  forall U lines,
    Forall ascii_text lines ->
    _load_keywords U (Some lines)
    = map (fun line => map ascii_lower (strip line))
          (filter (fun line => truthy (strip line)) lines)
    /\ Forall (fun k => k <> [] /\ strip k = k /\ map ascii_lower k = k
                        /\ ascii_text k)
         (_load_keywords U (Some lines))
    /\ ~ In (u "None") (_load_keywords U (Some lines))
    /\ _load_keywords U None = [].
Proof.
  intros U lines H.
  assert (E : _load_keywords U (Some lines)
              = map (fun line => map ascii_lower (strip line))
                    (filter (fun line => truthy (strip line)) lines)).
  { unfold _load_keywords. apply map_ext_in. intros line Hin.
    apply filter_In in Hin. destruct Hin as [Hin _].
    unfold lower. apply lower_ascii. apply Forall_strip.
    rewrite Forall_forall in H. now apply H. }
  split; [exact E|]. rewrite E.
  split; [|split; [|reflexivity]].
  - apply Forall_forall. intros k Hk.
    apply in_map_iff in Hk. destruct Hk as (line & <- & Hl).
    apply filter_In in Hl. destruct Hl as [Hl Ht].
    split; [destruct (strip line); [discriminate | discriminate]|].
    split; [now rewrite strip_map_lower, strip_idem|].
    split.
    + rewrite map_map. apply map_ext. intros c. apply up_to_case_lower.
    + apply Forall_map. apply Forall_strip.
      rewrite Forall_forall in H. specialize (H line Hl).
      eapply Forall_impl; [|exact H]. apply ascii_lower_ascii.
  - intros Hin. apply in_map_iff in Hin. destruct Hin as (line & Hk & _).
    destruct (strip line) as [|c s]; [discriminate|].
    simpl in Hk. injection Hk as Hc _. now apply ascii_lower_not_N in Hc.
Qed.

Lemma load_keywords_ascii_witness :
  Forall ascii_text [u "  Dairy
"; u "
"; u "CATTLE
"]
  /\ _load_keywords plain_tables (Some [u "  Dairy
"; u "
"; u "CATTLE
"]) = [u "dairy"; u "cattle"].
Proof.
  assert (H : Forall ascii_text [u "  Dairy
"; u "
"; u "CATTLE
"]) by (repeat constructor).
  split; [exact H|].
  rewrite (proj1 (load_keywords_ascii plain_tables _ H)). reflexivity.
Defined.

(** ** What one PDF comes to *)

Lemma rstrip_empty_all_space s : rstrip s = [] -> all_space s.
Proof.
  induction s as [|c s IH]; [constructor|].
  simpl. destruct (rstrip s); [|discriminate].
  destruct (isspace c) eqn:E; [|discriminate].
  intros _. constructor; [exact E | now apply IH].
Qed.

Lemma lstrip_all_space_inv s : all_space (lstrip s) -> all_space s.
Proof.
  induction s as [|c s IH]; simpl; [trivial|].
  destruct (isspace c) eqn:E; [|trivial].
  intros H. constructor; [exact E | now apply IH].
Qed.

Lemma blank_iff_all_space s : truthy (strip s) = false <-> all_space s.
Proof.
  split.
  - intros H. apply lstrip_all_space_inv, rstrip_empty_all_space.
    unfold strip in H. destruct (rstrip (lstrip s)); [reflexivity | discriminate].
  - intros H. now rewrite strip_all_space.
Qed.

Lemma table_row_described line :
  Forall (fun p => has_description p = true) (table_row line).
Proof.
  unfold table_row.
  destruct (truthy line && (2 <=? length (split_ws line))%nat);
    repeat constructor.
Qed.

Lemma existsb_described df :
  existsb has_description df = false <->
  Forall (fun p => Project_Description p = None) df.
Proof.
  induction df as [|p df IH]; simpl; [split; [constructor | reflexivity]|].
  rewrite orb_false_iff, IH. unfold has_description. split.
  - intros [Hp H]. constructor; [|exact H].
    destruct (Project_Description p); [discriminate | reflexivity].
  - intros H. inversion H as [|? ? Hp H']; subst. now rewrite Hp.
Qed.

Section Outcome.

Variable U : unicode_tables.

Lemma strategy2_described lines :
  Forall (fun p => has_description p = true) (strategy2 U lines).
Proof.
  unfold strategy2. destruct (after_header U lines) as [rows|]; [|constructor].
  apply Forall_forall. intros p Hp. apply in_flat_map in Hp.
  destruct Hp as (line & _ & Hp).
  pose proof (table_row_described line) as H. rewrite Forall_forall in H.
  now apply H.
Qed.

Lemma strategy3_described lines :
  Forall (fun p => has_description p = true) (strategy3 lines).
Proof.
  unfold strategy3. apply Forall_forall. intros p Hp.
  apply in_map_iff in Hp. destruct Hp as (ic & <- & _). reflexivity.
Qed.

Lemma parse_nonempty text pdf_filename :
  fst (parse_pdf_to_dataframe U text pdf_filename) <> [].
Proof.
  unfold parse_pdf_to_dataframe.
  destruct (strategy1 U (document_lines text)); [|discriminate].
  destruct (strategy2 U (document_lines text)); [|discriminate].
  destruct (strategy3 (document_lines text)); discriminate.
Qed.

Lemma parse_described text pdf_filename :
  strategy1 U (document_lines text) = [] ->
  Forall (fun p => has_description p = true)
    (fst (parse_pdf_to_dataframe U text pdf_filename)).
Proof.
  intros H. unfold parse_pdf_to_dataframe. rewrite H.
  pose proof (strategy2_described (document_lines text)) as H2.
  pose proof (strategy3_described (document_lines text)) as H3.
  destruct (strategy2 U (document_lines text)); [|exact H2].
  destruct (strategy3 (document_lines text)); [|exact H3].
  repeat constructor.
Qed.

Lemma process_dataframe_rows keywords df rows :
  process_dataframe U keywords df = WithKeywords rows -> map source rows = df.
Proof.
  unfold process_dataframe. destruct df as [|p df]; [discriminate|].
  destruct (negb (existsb has_description (p :: df))); [discriminate|].
  intros H. injection H as <-. simpl. f_equal.
  rewrite map_map. simpl. apply map_id.
Qed.

Lemma process_dataframe_unchanged keywords df :
  df <> [] ->
  (exists rows, process_dataframe U keywords df = Unchanged rows) <->
  existsb has_description df = false.
Proof.
  intros Hne. unfold process_dataframe. destruct df as [|p df]; [contradiction|].
  destruct (existsb has_description (p :: df)); simpl; split;
    try discriminate; eauto. intros [rows H]. discriminate.
Qed.

End Outcome.

(** X8. The extractor never returns an empty frame, so the "No project
    data found" exit of [process_single_pdf] is never taken; and when
    Strategy 1 found nothing, every record returned has a description. *)
Theorem parse_never_empty :
  forall U pdf_text pdf_filename,
    fst (parse_pdf_to_dataframe U pdf_text pdf_filename) <> []
    /\ (strategy1 U (document_lines pdf_text) = [] ->
        Forall (fun p => has_description p = true)
          (fst (parse_pdf_to_dataframe U pdf_text pdf_filename))).
Proof.
  intros U pdf_text pdf_filename.
  split; [apply parse_nonempty | apply parse_described].
Qed.

Lemma parse_never_empty_witness :
  strategy1 plain_tables (document_lines (u "plain words")) = []
  /\ Forall (fun p => has_description p = true)
       (fst (parse_pdf_to_dataframe plain_tables (u "plain words") (u "a.pdf"))).
Proof.
  split; [reflexivity|].
  exact (proj2 (parse_never_empty plain_tables (u "plain words") (u "a.pdf"))
           eq_refl).
Defined.

(** X9. How far [process_single_pdf] gets before it writes any file.  It
    returns False exactly when the text read is empty or blank.  It raises
    KeyError exactly when the text is not blank and Strategy 1 found
    records none of which has a description: the frame then has no
    description column, enrichment returns it without keyword columns, and
    the statistics read a column that is not there.  In every other case it
    reaches the writing of its files with a report whose rows are the
    extracted records, unchanged and in order; whether the writers then
    succeed is outside this statement. *)
Theorem process_single_pdf_before_writing :
  forall U keywords pages pdf_filename,
    let pdf_text := extract_text_from_pdf pages in
    let lines := document_lines pdf_text in
    let out := process_single_pdf_before_output U keywords pages pdf_filename in
    (out = ReturnedFalse <-> all_space pdf_text)
    /\ (out = RaisedKeyError <->
        ~ all_space pdf_text /\ strategy1 U lines <> []
        /\ Forall (fun p => Project_Description p = None) (strategy1 U lines))
    /\ (forall r, out = ReadyToWrite r ->
          map source (all_projects r)
          = fst (parse_pdf_to_dataframe U pdf_text pdf_filename)
          /\ r = make_report (all_projects r)).
Proof.
  intros U keywords pages pdf_filename pdf_text lines out.
  unfold out, process_single_pdf_before_output. fold pdf_text.
  pose proof (parse_nonempty U pdf_text pdf_filename) as Hne.
  destruct (truthy (strip pdf_text)) eqn:Ht; simpl negb; cbv iota.
  - assert (Hns : ~ all_space pdf_text).
    { intros H. apply blank_iff_all_space in H. congruence. }
    destruct (fst (parse_pdf_to_dataframe U pdf_text pdf_filename))
      as [|p df] eqn:Edf; [contradiction|].
    pose proof (process_dataframe_unchanged U keywords (p :: df) Hne) as Hu.
    rewrite existsb_described in Hu.
    destruct (process_dataframe U keywords (p :: df)) as [rows|rows] eqn:Ep.
    + split; [split; [discriminate | contradiction]|].
      split; [|discriminate].
      assert (Hall : Forall (fun p => Project_Description p = None) (p :: df))
        by (apply Hu; eauto).
      split; [intros _|reflexivity].
      split; [exact Hns|].
      destruct (strategy1 U lines) as [|q l] eqn:E1.
      * exfalso. pose proof (parse_described U pdf_text pdf_filename E1) as Hd.
        rewrite Edf in Hd. inversion Hd as [|? ? Hp _]; subst.
        inversion Hall as [|? ? Hp' _]; subst.
        unfold has_description in Hp. rewrite Hp' in Hp. discriminate.
      * split; [discriminate|].
        assert (E : fst (parse_pdf_to_dataframe U pdf_text pdf_filename) = q :: l).
        { unfold lines in E1. rewrite parse_strategy1; rewrite E1;
            [reflexivity | discriminate]. }
        rewrite Edf in E. now rewrite <- E.
    + split; [split; [discriminate | contradiction]|].
      split.
      * split; [discriminate|]. intros (_ & H1 & Hall). exfalso.
        assert (E : fst (parse_pdf_to_dataframe U pdf_text pdf_filename)
                    = strategy1 U lines).
        { unfold lines. now rewrite parse_strategy1. }
        rewrite Edf in E. rewrite <- E in Hall.
        apply Hu in Hall. destruct Hall as [rows' H]. discriminate.
      * intros r H. injection H as <-. simpl.
        split; [now apply (process_dataframe_rows U keywords) | reflexivity].
  - assert (Hs : all_space pdf_text) by (now apply blank_iff_all_space).
    split; [tauto|]. split; [|discriminate].
    split; [discriminate | tauto].
Qed.

Lemma process_single_pdf_before_writing_witness :
  process_single_pdf_before_output plain_tables [u "dairy"]
    (Some [u "Project: A"; u "Project: B"]) (u "a.pdf") = RaisedKeyError
  /\ strategy1 plain_tables
       (document_lines (extract_text_from_pdf (Some [u "Project: A"; u "Project: B"])))
     <> [].
Proof.
  split; [reflexivity|].
  destruct (process_single_pdf_before_writing plain_tables [u "dairy"]
              (Some [u "Project: A"; u "Project: B"]) (u "a.pdf"))
    as (_ & H & _).
  exact (proj1 (proj2 (proj1 H eq_refl))).
Defined.

(** ** Counters and filters *)

Lemma filter_length_bound {A : Type} (f : A -> bool) l :
  (length (filter f l) <= length l)%nat.
Proof.
  induction l as [|x l IH]; simpl; [lia|]. destruct (f x); simpl; lia.
Qed.

Lemma filter_orb_length {A : Type} (f g : A -> bool) l :
  (length (filter f l) <= length (filter (fun x => f x || g x) l))%nat
  /\ (length (filter g l) <= length (filter (fun x => f x || g x) l))%nat
  /\ (length (filter (fun x => f x || g x) l)
      <= length (filter f l) + length (filter g l))%nat.
Proof.
  induction l as [|x l IH]; simpl; [lia|].
  destruct (f x), (g x); simpl; lia.
Qed.

(** X10. The counters of a report are consistent: the projects matched
    in the name and those matched in the description are each at most the
    projects matched at all, which are at most their sum and at most all
    projects.  The 'Livestock Projects' sheet is left out exactly when no
    project matched; when written it lists the matched rows in their
    order. *)
Theorem report_counters :
  forall processed_df,
    let r := make_report processed_df in
    (name_matches r <= total_matches r)%nat
    /\ (desc_matches r <= total_matches r)%nat
    /\ (total_matches r <= name_matches r + desc_matches r)%nat
    /\ (total_matches r <= total_projects r)%nat
    /\ (livestock_projects r = None <-> total_matches r = 0%nat)
    /\ (forall sheet, livestock_projects r = Some sheet ->
          sheet = filter any_matched processed_df
          /\ subsequence sheet processed_df
          /\ length sheet = total_matches r).
Proof.
  intros processed_df r. unfold r, make_report. simpl.
  pose proof (filter_orb_length name_matched description_matched processed_df)
    as (H1 & H2 & H3).
  fold any_matched in H1, H2, H3.
  change (fun x => name_matched x || description_matched x)
    with any_matched in H1, H2, H3.
  repeat split; trivial.
  - apply filter_length_bound.
  - destruct (filter any_matched processed_df); [reflexivity | discriminate].
  - destruct (filter any_matched processed_df); [reflexivity | discriminate].
  - destruct (filter any_matched processed_df) eqn:E; [discriminate|].
    congruence.
  - destruct (filter any_matched processed_df) eqn:E; [discriminate|].
    injection H as <-. rewrite <- E. apply filter_subsequence.
  - destruct (filter any_matched processed_df) eqn:E; [discriminate|].
    now injection H as <-.
Qed.

Lemma report_counters_witness :
  livestock_projects (make_report []) = None
  /\ total_matches (make_report []) = 0%nat.
Proof.
  split; [reflexivity|].
  destruct (report_counters []) as (_ & _ & _ & _ & H & _).
  exact (proj1 H eq_refl).
Defined.

(** X11. The select box of the web page only selects: every choice shows
    rows of the processed frame, unchanged and in order; "All projects"
    shows all of them; a row is shown under "Any keyword matches" exactly
    when it is shown under "Keyword matches in name" or under "Keyword
    matches in description". *)
Theorem filtered_df_selects :
  forall choice processed_df,
    subsequence (filtered_df choice processed_df) processed_df
    /\ filtered_df All_projects processed_df = processed_df
    /\ (forall row,
          In row (filtered_df Any_keyword_matches processed_df) <->
          In row (filtered_df Keyword_matches_in_name processed_df)
          \/ In row (filtered_df Keyword_matches_in_description processed_df)).
Proof.
  intros choice processed_df. split; [|split; [reflexivity|]].
  - destruct choice; simpl;
      [apply subsequence_refl | apply filter_subsequence ..].
  - intros row. simpl. rewrite !filter_In. unfold any_matched.
    rewrite orb_true_iff. tauto.
Qed.

(** ** Strategy 2 *)

Lemma take_field_app s : s = fst (take_field s) ++ snd (take_field s).
Proof.
  induction s as [|c s IH]; simpl; [reflexivity|].
  destruct (isspace c); [reflexivity|].
  destruct (take_field s) as [f r]. simpl in *. now f_equal.
Qed.

Lemma take_field_unspaced s : unspaced (fst (take_field s)).
Proof.
  induction s as [|c s IH]; simpl; [constructor|].
  destruct (isspace c) eqn:E; [constructor|].
  destruct (take_field s) as [f r]. simpl in *. now constructor.
Qed.

Lemma take_field_rest s :
  snd (take_field s) = [] \/ exists c r, snd (take_field s) = c :: r /\ isspace c = true.
Proof.
  induction s as [|c s IH]; simpl; [now left|].
  destruct (isspace c) eqn:E.
  - right. exists c, s. now split.
  - destruct (take_field s) as [f r]. exact IH.
Qed.

Lemma take_field_head c s :
  isspace c = false -> fst (take_field (c :: s)) = c :: fst (take_field s).
Proof. intros E. simpl. rewrite E. now destruct (take_field s). Qed.

Lemma split_ws_aux_field s : forall cur,
  cur <> [] \/ fst (take_field s) <> [] ->
  split_ws_aux cur s
  = (rev cur ++ fst (take_field s)) :: split_ws_aux [] (snd (take_field s)).
Proof.
  induction s as [|c s IH]; intros cur H; simpl.
  - simpl in H. destruct H as [H | H]; [|congruence].
    rewrite app_nil_r. destruct cur; [congruence | reflexivity].
  - simpl in H. destruct (isspace c) eqn:E; simpl.
    + simpl in H. destruct H as [H | H]; [|congruence]. rewrite app_nil_r, E.
      destruct cur; [congruence | reflexivity].
    + rewrite IH by (left; discriminate).
      destruct (take_field s) as [f r]. simpl. now rewrite <- app_assoc.
Qed.

Lemma split_ws_lstrip s : split_ws s = split_ws (lstrip s).
Proof.
  unfold split_ws. induction s as [|c s IH]; simpl; [reflexivity|].
  destruct (isspace c) eqn:E; [exact IH|]. simpl. now rewrite E.
Qed.

Lemma split_ws_field c s :
  isspace c = false ->
  split_ws (c :: s)
  = fst (take_field (c :: s)) :: split_ws (snd (take_field (c :: s))).
Proof.
  intros E. unfold split_ws. rewrite split_ws_aux_field; [reflexivity|].
  right. rewrite take_field_head by assumption. discriminate.
Qed.

Lemma split_ws_nil_iff s : split_ws s = [] <-> lstrip s = [].
Proof.
  rewrite split_ws_lstrip. pose proof (lstrip_clean s) as H.
  destruct (lstrip s) as [|c s']; [tauto|]. simpl in H.
  rewrite split_ws_field by assumption. split; discriminate.
Qed.

Lemma lstrip_gap s : exists gap, s = gap ++ lstrip s /\ all_space gap.
Proof.
  induction s as [|c s (gap & E & H)]; simpl.
  - exists []. split; [reflexivity | constructor].
  - destruct (isspace c) eqn:Ec.
    + exists (c :: gap). split; [simpl; now f_equal | now constructor].
    + exists []. split; [reflexivity | constructor].
Qed.

(** X12. Strategy 2 splits a row at its first run of whitespace and
    loses nothing else: a line gives a record exactly when it has at least
    two whitespace-separated tokens; the name is the first token (not empty,
    free of whitespace), the description is the whole remainder (not empty,
    starting at the second token), and name, the whitespace between, and
    description put together are the line again. *)
Theorem table_row_split :
  forall line,
    (table_row line = [] <-> (length (split_ws line) < 2)%nat)
    /\ (forall p, In p (table_row line) ->
          exists gap desc,
            Project_Description p = Some desc
            /\ lstrip line = Project_Name p ++ gap ++ desc
            /\ Project_Name p <> [] /\ unspaced (Project_Name p)
            /\ gap <> [] /\ all_space gap
            /\ desc <> [] /\ starts_clean desc
            /\ split_ws line = Project_Name p :: split_ws desc
            /\ table_row line = [p]).
Proof.
  intros line. unfold table_row, split_ws_1.
  rewrite (split_ws_lstrip line).
  pose proof (lstrip_clean line) as Hc.
  assert (Ht : lstrip line <> [] -> truthy line = true).
  { destruct line; [simpl; congruence | reflexivity]. }
  destruct (lstrip line) as [|c s0] eqn:El.
  - simpl. rewrite andb_false_r. split; [split; [lia | reflexivity]|].
    intros p [].
  - simpl in Hc. rewrite (Ht ltac:(discriminate)). simpl andb.
    rewrite (split_ws_field c s0 Hc).
    pose proof (take_field_app (c :: s0)) as Happ.
    pose proof (take_field_unspaced (c :: s0)) as Hun.
    pose proof (take_field_rest (c :: s0)) as Hrest.
    pose proof (take_field_head c s0 Hc) as Hhead.
    destruct (take_field (c :: s0)) as [f r] eqn:Etf. simpl fst in *. simpl snd in *.
    pose proof (split_ws_nil_iff r) as Hnil.
    rewrite (split_ws_lstrip r) in *.
    destruct (lstrip r) as [|d r'] eqn:Er.
    + rewrite (proj2 Hnil eq_refl). simpl.
      split; [split; [lia | reflexivity]|]. intros p [].
    + destruct (split_ws (d :: r')) as [|x xs] eqn:Esw.
      { exfalso. assert (H : d :: r' = []) by (now apply Hnil). discriminate. }
      simpl.
      split; [split; [discriminate | lia]|].
      intros p [<- | []]. simpl.
      destruct (lstrip_gap r) as (gap & Eg & Hg). rewrite Er in Eg.
      exists gap, (d :: r').
      split; [reflexivity|].
      split; [now rewrite Happ, Eg|].
      split; [rewrite Hhead; discriminate|].
      split; [exact Hun|].
      split.
      { pose proof (lstrip_clean r) as Hcl. rewrite Er in Hcl. simpl in Hcl.
        destruct Hrest as [-> | (y & r0 & -> & Hy)]; [discriminate Er|].
        destruct gap; [|discriminate]. simpl in Eg. injection Eg as -> _.
        congruence. }
      split; [exact Hg|].
      split; [discriminate|].
      split; [pose proof (lstrip_clean r) as Hcl; now rewrite Er in Hcl|].
      split; [now rewrite Esw | reflexivity].
Qed.

Lemma table_row_split_witness :
  In {| Project_Name := u "alpha"; Project_Description := Some (u "beta  gamma") |}
     (table_row (u "alpha   beta  gamma"))
  /\ table_row (u "alpha   beta  gamma")
     = [{| Project_Name := u "alpha";
           Project_Description := Some (u "beta  gamma") |}].
Proof.
  assert (H : In {| Project_Name := u "alpha";
                    Project_Description := Some (u "beta  gamma") |}
                (table_row (u "alpha   beta  gamma"))) by (now left).
  split; [exact H|].
  destruct (proj2 (table_row_split (u "alpha   beta  gamma")) _ H)
    as (gap & desc & _ & _ & _ & _ & _ & _ & _ & _ & _ & E).
  exact E.
Defined.

Section TableHeader.

Variable U : unicode_tables.



End TableHeader.



(** ** Strategy 3: what a chunk is *)

Lemma flush_chunks lines chunks cur :
  Forall (chunk_of lines) chunks ->
  (exists pre post, lines = pre ++ cur ++ post) ->
  Forall substantial cur ->
  Forall (chunk_of lines) (flush (chunks, cur)).
Proof.
  intros Hch (pre & post & E) Hcur. unfold flush. simpl.
  destruct cur as [|l cur]; [exact Hch|].
  destruct (Nat.ltb_spec 100 (length (join [SPACE] (l :: cur)))) as [H|H];
    [|exact Hch].
  apply Forall_app. split; [exact Hch|].
  constructor; [|constructor].
  split; [exact H|]. exists pre, (l :: cur), post.
  repeat split; trivial. discriminate.
Qed.

Lemma s3_loop_chunks rest : forall done chunks cur,
  Forall (chunk_of (done ++ rest)) chunks ->
  (exists pre, done = pre ++ cur) ->
  Forall substantial cur ->
  Forall (chunk_of (done ++ rest)) (flush (s3_loop rest (chunks, cur))).
Proof.
  induction rest as [|l rest IH]; intros done chunks cur Hch (pre & E) Hcur.
  - apply flush_chunks; trivial. exists pre, []. now rewrite !app_nil_r.
  - cbn [s3_loop].
    replace (done ++ l :: rest) with ((done ++ [l]) ++ rest) in *
      by (now rewrite <- app_assoc).
    destruct (Nat.ltb_spec 50 (length l)) as [H|H].
    + rewrite (s3_step_substantial _ _ _ H). apply IH; trivial.
      * exists pre. rewrite E. now rewrite <- app_assoc.
      * apply Forall_app. split; [exact Hcur | now repeat constructor].
    + rewrite (s3_step_short _ _ H). apply IH.
      * apply flush_chunks; trivial.
        exists pre, (l :: rest). rewrite E, <- !app_assoc. reflexivity.
      * exists (done ++ [l]). now rewrite app_nil_r.
      * constructor.
Qed.

Lemma content_chunks_of lines : Forall (chunk_of lines) (content_chunks lines).
Proof.
  rewrite content_chunks_flush.
  apply (s3_loop_chunks lines []); [constructor | now exists [] | constructor].
Qed.

Lemma enumerate_from_In {A : Type} (l : list A) : forall k i x,
  In (i, x) (enumerate_from k l) -> (k <= i < k + length l)%nat /\ In x l.
Proof.
  induction l as [|y l IH]; intros k i x; simpl; [intros []|].
  intros [H | H].
  - injection H as <- <-. split; [lia | now left].
  - apply IH in H. split; [lia | now right].
Qed.

Lemma firstn_In {A : Type} n (l : list A) x : In x (firstn n l) -> In x l.
Proof.
  revert l. induction n as [|n IH]; intros [|y l]; simpl; try tauto.
  intros [-> | H]; [now left | right; now apply IH].
Qed.

Lemma content_chunks_short lines :
  Forall (fun l => (length l <= 50)%nat) lines -> content_chunks lines = [].
Proof.
  intros H. rewrite content_chunks_flush.
  assert (E : s3_loop lines ([], []) = ([], [])).
  { induction H as [|l lines Hl Hls IH]; [reflexivity|].
    cbn [s3_loop]. now rewrite (s3_step_short _ _ Hl). }
  now rewrite E.
Qed.

(** X14. Every record of Strategy 3 describes one chunk: its description
    is longer than 100 characters and is a run of consecutive lines of the
    document, each longer than 50 characters, joined by single spaces.  Its
    name is "Section " with a number from 1 to 10, ": " and a title of at
    most 100 characters that holds no period. *)
Theorem strategy3_records :
  forall lines p,
    In p (strategy3 lines) ->
    exists chunk i title,
      Project_Description p = Some chunk
      /\ chunk_of lines chunk
      /\ (i < 10)%nat
      /\ Project_Name p = u "Section " ++ str_of_nat (i + 1) ++ u ": " ++ title
      /\ (length title <= 100)%nat
      /\ ~ In PERIOD title.
Proof.
  intros lines p Hp. unfold strategy3 in Hp.
  apply in_map_iff in Hp. destruct Hp as ([i chunk] & <- & Hin).
  apply enumerate_from_In in Hin. destruct Hin as [Hi Hc]. cbn [fst snd].
  exists chunk, i, (firstn 100 (strip (nth 0 (split_on PERIOD chunk) []))).
  split; [reflexivity|]. split.
  { pose proof (content_chunks_of lines) as H. rewrite Forall_forall in H.
    apply H. now apply firstn_In in Hc. }
  split.
  { pose proof (firstn_le_length 10 (content_chunks lines)). lia. }
  split; [reflexivity|].
  split; [apply firstn_le_length|].
  intros Hin. apply firstn_In in Hin.
  pose proof (split_on_no_sep PERIOD chunk) as Hs.
  pose proof (split_on_nonempty PERIOD chunk) as Hne.
  destruct (split_on PERIOD chunk) as [|f fs]; [contradiction|].
  inversion Hs as [|? ? Hf _]; subst. cbn [nth] in Hin.
  assert (Hall : Forall (fun c => c <> PERIOD) f).
  { apply Forall_forall. intros c Hc' ->. now apply Hf. }
  apply (Forall_strip _ _) in Hall. rewrite Forall_forall in Hall.
  now apply (Hall PERIOD Hin).
Qed.

Lemma strategy3_records_witness :
  In {| Project_Name := u "Section 1: " ++ repeat 120 100;
        Project_Description := Some (repeat 120 101) |}
     (strategy3 [repeat 120 101])
  /\ exists chunk i title,
       Project_Description
         {| Project_Name := u "Section 1: " ++ repeat 120 100;
            Project_Description := Some (repeat 120 101) |} = Some chunk
       /\ chunk_of [repeat 120 101] chunk
       /\ (i < 10)%nat
       /\ Project_Name
            {| Project_Name := u "Section 1: " ++ repeat 120 100;
               Project_Description := Some (repeat 120 101) |}
          = u "Section " ++ str_of_nat (i + 1) ++ u ": " ++ title
       /\ (length title <= 100)%nat
       /\ ~ In PERIOD title.
Proof.
  assert (H : In {| Project_Name := u "Section 1: " ++ repeat 120 100;
                    Project_Description := Some (repeat 120 101) |}
                (strategy3 [repeat 120 101])) by (now left).
  split; [exact H|].
  exact (strategy3_records [repeat 120 101] _ H).
Defined.

(** X15. When the labels find nothing, no table header is found and no
    line is longer than 50 characters, the result is the single fallback
    record: it is named after the file and its description is the first
    2000 characters of the raw text, the whole text when that is no
    longer. *)
Theorem fallback_when_nothing_found :
  forall U pdf_text pdf_filename,
    strategy1 U (document_lines pdf_text) = [] ->
    strategy2 U (document_lines pdf_text) = [] ->
    Forall (fun l => (length l <= 50)%nat) (document_lines pdf_text) ->
    parse_pdf_to_dataframe U pdf_text pdf_filename
    = ([{| Project_Name := u "Full Document Analysis - " ++ pdf_filename;
           Project_Description := Some (firstn 2000 pdf_text) |}],
       [msg_alternative pdf_filename; msg_content pdf_filename])
    /\ (length (firstn 2000 pdf_text) <= 2000)%nat
    /\ ((length pdf_text <= 2000)%nat -> firstn 2000 pdf_text = pdf_text).
Proof.
  intros U pdf_text pdf_filename H1 H2 H3.
  split; [|split; [apply firstn_le_length | apply firstn_all2]].
  unfold parse_pdf_to_dataframe, strategy3.
  now rewrite H1, H2, (content_chunks_short _ H3).
Qed.

Lemma fallback_when_nothing_found_witness :
  strategy1 plain_tables (document_lines (u "short line
short line")) = []
  /\ parse_pdf_to_dataframe plain_tables (u "short line
short line") (u "a.pdf")
     = ([{| Project_Name := u "Full Document Analysis - a.pdf";
            Project_Description := Some (u "short line
short line") |}],
        [msg_alternative (u "a.pdf"); msg_content (u "a.pdf")]).
Proof.
  split; [reflexivity|].
  assert (H3 : Forall (fun l => (length l <= 50)%nat)
                 (document_lines (u "short line
short line")))
    by (vm_compute; repeat constructor).
  exact (proj1 (fallback_when_nothing_found plain_tables (u "short line
short line") (u "a.pdf") eq_refl eq_refl H3)).
Defined.

(** ** Strategy 1: which description a record keeps *)

Lemma join_cons_app sep x l rest :
  join sep ((x ++ sep ++ l) :: rest) = x ++ sep ++ join sep (l :: rest).
Proof.
  destruct rest as [|m rest]; [reflexivity|].
  change (join sep ((x ++ sep ++ l) :: m :: rest))
    with ((x ++ sep ++ l) ++ sep ++ join sep (m :: rest)).
  change (join sep (l :: m :: rest)) with (l ++ sep ++ join sep (m :: rest)).
  now rewrite <- !app_assoc.
Qed.

Section Descriptions.

Variable U : unicode_tables.

Lemma open_description_none after rest :
  Forall (fun l => is_name_line U l = false) after ->
  Forall (fun l => is_description_line U l = false) after ->
  rest = [] \/ (exists n rest', rest = n :: rest' /\ is_name_line U n = true) ->
  open_description U (after ++ rest) = None.
Proof.
  intros Hn Hd Hrest. induction after as [|l after IH]; simpl.
  - destruct Hrest as [-> | (n & rest' & -> & Hname)]; [reflexivity|].
    simpl. now rewrite Hname.
  - inversion Hn; subst. inversion Hd; subst.
    rewrite H1, IH, H3 by assumption. reflexivity.
Qed.

Lemma open_description_last before d after rest :
  Forall (fun l => is_name_line U l = false) (before ++ d :: after) ->
  is_description_line U d = true ->
  Forall (fun l => is_description_line U l = false) after ->
  rest = [] \/ (exists n rest', rest = n :: rest' /\ is_name_line U n = true) ->
  open_description U (before ++ d :: after ++ rest)
  = Some (continuation U (label_value d) (after ++ rest)).
Proof.
  intros Hn Hd Hafter Hrest. induction before as [|l before IH]; simpl.
  - inversion Hn; subst.
    rewrite H1, open_description_none, Hd by assumption. reflexivity.
  - simpl in Hn. inversion Hn; subst. rewrite H1, IH by assumption. reflexivity.
Qed.

Lemma until_stop_app a s b :
  Forall (fun l => any_in stop_words (lower U l) = false) a ->
  any_in stop_words (lower U s) = true ->
  until_stop U (a ++ s :: b) = a.
Proof.
  intros Ha Hs. induction Ha as [|l a Hl Ha IH]; cbn [until_stop app].
  - now rewrite Hs.
  - now rewrite Hl, IH.
Qed.

Lemma until_stop_all a :
  Forall (fun l => any_in stop_words (lower U l) = false) a ->
  until_stop U a = a.
Proof.
  induction 1 as [|l a Hl Ha IH]; cbn [until_stop]; [reflexivity|].
  now rewrite Hl, IH.
Qed.

Lemma continuation_join a : forall desc,
  Forall (fun l => any_in stop_words (lower U l) = false) a ->
  Forall (fun l => l <> [] /\ strip l = l) a ->
  continuation U desc a = join [SPACE] (desc :: a).
Proof.
  induction a as [|l a IH]; intros desc Hs Hl; [reflexivity|].
  inversion Hs; subst. inversion Hl as [|? ? [Hne Hst] Hl']; subst.
  cbn [continuation]. rewrite H1, Hst.
  destruct l as [|c l]; [contradiction|]. cbn [truthy].
  rewrite IH by assumption. apply join_cons_app.
Qed.

End Descriptions.

(** X16. A record keeps the description of the last description line of
    its block: with a name line, then lines without name label of which
    [d] is the last description line, then the next name line or the end,
    the record's description is what [d] captures, whatever an earlier
    description line captured; and that capture reads on into the lines
    after the block until a stop word. *)
Theorem last_description_wins :
  forall U name_line before d after rest,
    is_name_line U name_line = true ->
    Forall (fun l => is_name_line U l = false) (before ++ d :: after) ->
    is_description_line U d = true ->
    Forall (fun l => is_description_line U l = false) after ->
    rest = [] \/ (exists n rest', rest = n :: rest' /\ is_name_line U n = true) ->
    strategy1 U (name_line :: before ++ d :: after ++ rest)
    = {| Project_Name := label_value name_line;
         Project_Description :=
           Some (continuation U (label_value d) (after ++ rest)) |}
        :: strategy1 U rest.
Proof.
  intros U name_line before d after rest Hname Hn Hd Hafter Hrest.
  rewrite !strategy1_labeled. cbn [labeled_records]. rewrite Hname.
  rewrite open_description_last by assumption. f_equal.
  replace (before ++ d :: after ++ rest) with ((before ++ d :: after) ++ rest)
    by (now rewrite <- app_assoc).
  now apply labeled_records_skip.
Qed.

Lemma last_description_wins_witness :
  is_name_line plain_tables (u "Project: A") = true
  /\ strategy1 plain_tables
       (u "Project: A" :: [u "Description: first"; u "note"]
          ++ u "Summary: second" :: [u "tail"] ++ [u "Project: B"])
     = {| Project_Name := label_value (u "Project: A");
          Project_Description :=
            Some (continuation plain_tables (label_value (u "Summary: second"))
                    ([u "tail"] ++ [u "Project: B"])) |}
         :: strategy1 plain_tables [u "Project: B"].
Proof.
  split; [reflexivity|].
  apply (last_description_wins plain_tables (u "Project: A")
           [u "Description: first"; u "note"] (u "Summary: second")
           [u "tail"] [u "Project: B"]).
  - reflexivity.
  - repeat constructor.
  - reflexivity.
  - repeat constructor.
  - right. exists (u "Project: B"), []. split; reflexivity.
Defined.

(** X17. The text a description line captures: the label's value, then
    the following lines up to the first one that holds a stop word, joined
    by single spaces; that line and everything after it stay out. *)
Theorem continuation_stops :
  forall U desc a stop b,
    Forall (fun l => any_in stop_words (lower U l) = false) a ->
    Forall (fun l => l <> [] /\ strip l = l) a ->
    any_in stop_words (lower U stop) = true ->
    continuation U desc (a ++ stop :: b) = join [SPACE] (desc :: a)
    /\ continuation U desc a = join [SPACE] (desc :: a).
Proof.
  intros U desc a stop b Ha Hl Hs.
  split; [|now apply continuation_join].
  rewrite continuation_until_stop, until_stop_app by assumption.
  rewrite <- (until_stop_all U a Ha) at 1.
  rewrite <- continuation_until_stop. now apply continuation_join.
Qed.

Lemma continuation_stops_witness :
  any_in stop_words (lower plain_tables (u "Budget: 5")) = true
  /\ continuation plain_tables (u "cows") ([u "and goats"] ++ u "Budget: 5" :: [u "more"])
     = join [SPACE] [u "cows"; u "and goats"].
Proof.
  split; [reflexivity|].
  apply (continuation_stops plain_tables (u "cows") [u "and goats"]
           (u "Budget: 5") [u "more"]).
  - repeat constructor.
  - repeat constructor. discriminate.
  - reflexivity.
Defined.

(** ** The web page's parser *)

Lemma app_project_line_truthy raw :
  app_project_line raw = true -> truthy (strip raw) = true.
Proof.
  unfold app_project_line. destruct (strip raw); [discriminate | reflexivity].
Qed.

Lemma app_step_project raw st :
  app_project_line raw = true ->
  FilterApp.parse_step raw st
  = (close_current st,
     Some {| Project_Name := app_name raw; Project_Description := None |}).
Proof.
  intros H. unfold FilterApp.parse_step.
  rewrite (app_project_line_truthy _ H). unfold app_project_line in H.
  simpl negb. cbv iota. now rewrite H.
Qed.

Lemma app_step_names raw st :
  app_project_line raw = false ->
  map Project_Name (close_current (FilterApp.parse_step raw st))
  = map Project_Name (close_current st).
Proof.
  intros H. unfold FilterApp.parse_step. unfold app_project_line in H.
  destruct (negb (truthy (strip raw))); [reflexivity|]. rewrite H.
  destruct st as [ps [p|]]; simpl.
  - destruct (startswith (strip raw) (u "Description:")
              || startswith (strip raw) (u "Project Description:"));
      [unfold close_current; simpl; now rewrite !map_app|].
    destruct (Project_Description p);
      unfold close_current; simpl; now rewrite !map_app.
  - destruct (startswith (strip raw) (u "Description:")
              || startswith (strip raw) (u "Project Description:"));
      reflexivity.
Qed.

Lemma app_loop_names lines : forall st,
  map Project_Name (close_current (FilterApp.parse_loop lines st))
  = map Project_Name (close_current st)
      ++ map app_name (filter app_project_line lines).
Proof.
  induction lines as [|raw lines IH]; intros st; simpl.
  - now rewrite app_nil_r.
  - rewrite IH. destruct (app_project_line raw) eqn:E.
    + rewrite (app_step_project _ _ E). unfold close_current at 1. simpl.
      rewrite map_app. simpl. now rewrite <- app_assoc.
    + now rewrite (app_step_names _ _ E).
Qed.

Lemma app_step_unlabelled_described raw ps n d :
  app_project_line raw = false -> app_description_line raw = false ->
  FilterApp.parse_step raw
    (ps, Some {| Project_Name := n; Project_Description := Some d |})
  = (ps, Some {| Project_Name := n; Project_Description := Some d |}).
Proof.
  intros Hp Hd. unfold FilterApp.parse_step.
  unfold app_description_line in Hd. rewrite Hp in Hd. simpl in Hd.
  unfold app_project_line in Hp.
  destruct (negb (truthy (strip raw))); [reflexivity|].
  now rewrite Hp, Hd.
Qed.

Lemma app_loop_described lines ps n d :
  Forall (fun raw => app_project_line raw = false
                     /\ app_description_line raw = false) lines ->
  FilterApp.parse_loop lines
    (ps, Some {| Project_Name := n; Project_Description := Some d |})
  = (ps, Some {| Project_Name := n; Project_Description := Some d |}).
Proof.
  induction 1 as [|raw lines [Hp Hd] Hl IH]; [reflexivity|].
  simpl. now rewrite app_step_unlabelled_described.
Qed.

(** X18. The web page's parser makes one record per line that, once
    trimmed, starts with "Project:" or "Project Name:" (capitals as
    written), named by the text after the first colon, in order.  It never
    returns an empty frame: exactly when no line starts so, it returns the
    built-in sample project with a warning. *)
Theorem app_parser_records :
  forall pdf_text,
    map Project_Name (FilterApp.parsed_projects pdf_text)
    = map app_name (filter app_project_line (split_on NEWLINE pdf_text))
    /\ fst (FilterApp.parse_pdf_to_dataframe pdf_text) <> []
    /\ (FilterApp.parse_pdf_to_dataframe pdf_text
        = ([FilterApp.sample_project], [FilterApp.warning])
        <-> Forall (fun raw => app_project_line raw = false)
              (split_on NEWLINE pdf_text)).
Proof.
  intros pdf_text.
  assert (E : map Project_Name (FilterApp.parsed_projects pdf_text)
              = map app_name (filter app_project_line (split_on NEWLINE pdf_text))).
  { unfold FilterApp.parsed_projects. now rewrite app_loop_names. }
  split; [exact E|].
  unfold FilterApp.parse_pdf_to_dataframe.
  destruct (FilterApp.parsed_projects pdf_text) as [|p ps] eqn:Ep.
  - split; [discriminate|]. split; [intros _|reflexivity].
    simpl in E. symmetry in E. apply map_eq_nil in E.
    apply Forall_forall. intros raw Hin.
    destruct (app_project_line raw) eqn:Hr; [|reflexivity].
    assert (H : In raw (filter app_project_line (split_on NEWLINE pdf_text)))
      by (apply filter_In; now split).
    rewrite E in H. destruct H.
  - split; [discriminate|]. split; [discriminate|].
    intros H. rewrite (filter_none_on _ _ H) in E. discriminate.
Qed.

Lemma app_parser_records_witness :
  Forall (fun raw => app_project_line raw = false)
    (split_on NEWLINE (u "project: lower case
Title: x"))
  /\ FilterApp.parse_pdf_to_dataframe (u "project: lower case
Title: x")
     = ([FilterApp.sample_project], [FilterApp.warning]).
Proof.
  assert (H : Forall (fun raw => app_project_line raw = false)
                (split_on NEWLINE (u "project: lower case
Title: x"))) by (vm_compute; repeat constructor).
  split; [exact H|].
  exact (proj2 (proj2 (proj2 (app_parser_records (u "project: lower case
Title: x")))) H).
Defined.

(** X19. The web page's parser does not accumulate a description over
    several lines: after a project line, the first non-blank line without
    a label becomes the description, with a space in front; the unlabelled
    lines after it change nothing. *)
Theorem app_description_first_line_only :
  forall projects name x following,
    app_project_line x = false -> app_description_line x = false ->
    truthy (strip x) = true ->
    Forall (fun raw => app_project_line raw = false
                       /\ app_description_line raw = false) following ->
    FilterApp.parse_loop (x :: following)
      (projects, Some {| Project_Name := name; Project_Description := None |})
    = (projects,
       Some {| Project_Name := name;
               Project_Description := Some (SPACE :: strip x) |}).
Proof.
  intros projects name x following Hp Hd Ht Hf.
  cbn [FilterApp.parse_loop].
  assert (E : FilterApp.parse_step x
                (projects, Some {| Project_Name := name;
                                   Project_Description := None |})
              = (projects, Some {| Project_Name := name;
                                   Project_Description := Some (SPACE :: strip x) |})).
  { unfold FilterApp.parse_step.
    unfold app_description_line in Hd. rewrite Hp in Hd. simpl in Hd.
    unfold app_project_line in Hp. rewrite Ht. simpl negb. cbv iota.
    now rewrite Hp, Hd. }
  rewrite E. now apply app_loop_described.
Qed.

Lemma app_description_first_line_only_witness :
  truthy (strip (u "first line")) = true
  /\ FilterApp.parse_loop (u "first line" :: [u "second line"; u "third"])
       ([], Some {| Project_Name := u "A"; Project_Description := None |})
     = ([], Some {| Project_Name := u "A";
                    Project_Description := Some (SPACE :: strip (u "first line")) |}).
Proof.
  split; [reflexivity|].
  apply (app_description_first_line_only [] (u "A") (u "first line")
           [u "second line"; u "third"]); try reflexivity.
  repeat constructor.
Defined.

(** ** The two parsers compared *)

Lemma startswith_split s : forall p,
  startswith s p = true -> exists rest, s = p ++ rest.
Proof.
  induction s as [|c s IH]; intros [|a p]; simpl; try discriminate; eauto.
  intros H. apply andb_true_iff in H. destruct H as [E H].
  apply N.eqb_eq in E. subst. destruct (IH _ H) as [rest ->]. eauto.
Qed.

Lemma startswith_app p rest : startswith (p ++ rest) p = true.
Proof.
  induction p as [|a p IH]; simpl; [now destruct rest|].
  now rewrite N.eqb_refl.
Qed.

Lemma contains_In c s : In c s -> contains [c] s = true.
Proof.
  induction s as [|d s IH]; [intros []|].
  intros [-> | H]; simpl.
  - rewrite N.eqb_refl. now destruct s.
  - rewrite (IH H). apply orb_true_r.
Qed.

Lemma lower_from_app U a : forall before b,
  ascii_text a ->
  lower_from U before (a ++ b)
  = map ascii_lower a ++ lower_from U (rev a ++ before) b.
Proof.
  induction a as [|c a IH]; intros before b H; [reflexivity|].
  inversion H as [|? ? Hc Ha]; subst. simpl. rewrite Hc, IH by assumption.
  now rewrite <- app_assoc.
Qed.

Lemma prefix_is_name_line U (label l : pystr) :
  ascii_text label -> In (map ascii_lower label) name_patterns ->
  startswith l label = true -> is_name_line U l = true.
Proof.
  intros Ha Hin Hs. destruct (startswith_split _ _ Hs) as [rest ->].
  unfold is_name_line, any_in. apply existsb_exists.
  exists (map ascii_lower label). split; [exact Hin|].
  unfold lower. rewrite lower_from_app by assumption.
  apply startswith_contains, startswith_app.
Qed.

Lemma app_project_line_name_line U raw :
  app_project_line raw = true ->
  truthy (strip raw) = true
  /\ is_name_line U (strip raw) = true
  /\ label_value (strip raw) = app_name raw.
Proof.
  intros H. split; [now apply app_project_line_truthy|].
  unfold app_project_line in H. apply orb_true_iff in H.
  split.
  - destruct H as [H | H].
    + apply (prefix_is_name_line U (u "Project:")); trivial;
        [repeat constructor | now left].
    + apply (prefix_is_name_line U (u "Project Name:")); trivial;
        [repeat constructor | right; now left].
  - unfold label_value, app_name.
    rewrite contains_In; [reflexivity|].
    destruct H as [H | H]; destruct (startswith_split _ _ H) as [rest ->];
      apply in_or_app; left; vm_compute; tauto.
Qed.

(** X20. Whatever the web page's parser takes for a project, the command
    line parser's Strategy 1 takes too, under the same name: the names of
    the one are a subsequence of the names of the other on the same
    text. *)
Theorem app_names_within_strategy1 :
  forall U pdf_text,
    subsequence
      (map Project_Name (FilterApp.parsed_projects pdf_text))
      (map Project_Name (strategy1 U (document_lines pdf_text))).
Proof.
  intros U pdf_text.
  unfold FilterApp.parsed_projects. rewrite app_loop_names. simpl.
  rewrite strategy1_labeled, labeled_records_names. unfold document_lines.
  induction (split_on NEWLINE pdf_text) as [|raw raws IH]; [constructor|].
  simpl. destruct (app_project_line raw) eqn:E.
  - destruct (app_project_line_name_line U raw E) as (Ht & Hn & Hv).
    rewrite Ht. simpl. rewrite Hn. simpl. rewrite Hv.
    now constructor.
  - destruct (truthy (strip raw)); [|exact IH].
    simpl. destruct (is_name_line U (strip raw)); [|exact IH].
    simpl. now constructor.
Qed.

(** ** More on the two label parsers *)

Lemma app_loop_app pre : forall rest st,
  FilterApp.parse_loop (pre ++ rest) st
  = FilterApp.parse_loop rest (FilterApp.parse_loop pre st).
Proof.
  induction pre as [|raw pre IH]; intros rest st; simpl; [reflexivity|].
  apply IH.
Qed.

Lemma app_step_no_record raw projects :
  app_project_line raw = false ->
  FilterApp.parse_step raw (projects, None) = (projects, None).
Proof.
  intros H. unfold FilterApp.parse_step. unfold app_project_line in H.
  destruct (negb (truthy (strip raw))); [reflexivity|]. rewrite H.
  destruct (startswith (strip raw) (u "Description:")
            || startswith (strip raw) (u "Project Description:")); reflexivity.
Qed.

(** X21. In the web page's parser too, what comes before the first
    project line leaves no trace: a "Description:" line or any other line
    there creates no record and enters no description. *)
Theorem app_lines_before_project_ignored :
  forall pre rest,
    Forall (fun raw => app_project_line raw = false) pre ->
    FilterApp.parse_loop pre ([], None) = ([], None)
    /\ FilterApp.parse_loop (pre ++ rest) ([], None)
       = FilterApp.parse_loop rest ([], None).
Proof.
  intros pre rest H.
  assert (E : FilterApp.parse_loop pre ([], None) = ([], None)).
  { induction H as [|raw pre Hr Hp IH]; [reflexivity|].
    simpl. now rewrite app_step_no_record. }
  split; [exact E|]. now rewrite app_loop_app, E.
Qed.

Lemma app_lines_before_project_ignored_witness :
  Forall (fun raw => app_project_line raw = false)
    [u "Description: orphan"; u "free text"]
  /\ FilterApp.parse_loop
       ([u "Description: orphan"; u "free text"] ++ [u "Project: A"]) ([], None)
     = FilterApp.parse_loop [u "Project: A"] ([], None).
Proof.
  assert (H : Forall (fun raw => app_project_line raw = false)
                [u "Description: orphan"; u "free text"])
    by (repeat constructor).
  split; [exact H|].
  exact (proj2 (app_lines_before_project_ignored
                  [u "Description: orphan"; u "free text"] [u "Project: A"] H)).
Defined.

(** X22. Strategy 1 makes one record per name line: as many records as
    there are lines holding a name label, so none at all, and the next
    strategy is tried, exactly when no line holds one; every name it gives
    is trimmed. *)
Theorem strategy1_record_count :
  forall U lines,
    length (strategy1 U lines) = length (filter (is_name_line U) lines)
    /\ (strategy1 U lines = [] <->
        Forall (fun l => is_name_line U l = false) lines)
    /\ Forall (fun p => strip (Project_Name p) = Project_Name p)
         (strategy1 U lines).
Proof.
  intros U lines.
  pose proof (labeled_records_names U lines) as E.
  rewrite <- strategy1_labeled in E.
  assert (Hlen : length (strategy1 U lines)
                 = length (filter (is_name_line U) lines)).
  { rewrite <- (length_map Project_Name), E. apply length_map. }
  split; [exact Hlen|]. split.
  - split.
    + intros H. rewrite H in Hlen. simpl in Hlen.
      apply Forall_forall. intros l Hl.
      destruct (is_name_line U l) eqn:Hn; [|reflexivity].
      assert (Hin : In l (filter (is_name_line U) lines))
        by (apply filter_In; now split).
      destruct (filter (is_name_line U) lines); [destruct Hin | discriminate].
    + intros H. rewrite (filter_none_on _ _ H) in Hlen.
      destruct (strategy1 U lines); [reflexivity | discriminate].
  - apply Forall_forall. intros p Hp.
    assert (Hin : In (Project_Name p) (map Project_Name (strategy1 U lines)))
      by (now apply in_map).
    rewrite E in Hin. apply in_map_iff in Hin. destruct Hin as (l & <- & _).
    unfold label_value. destruct (contains [COLON] l); apply strip_idem.
Qed.

Lemma strategy1_record_count_witness :
  Forall (fun l => is_name_line plain_tables l = false) [u "free text"; u "Budget: 3"]
  /\ strategy1 plain_tables [u "free text"; u "Budget: 3"] = [].
Proof.
  assert (H : Forall (fun l => is_name_line plain_tables l = false)
                [u "free text"; u "Budget: 3"]) by (repeat constructor).
  split; [exact H|].
  exact (proj2 (proj1 (proj2 (strategy1_record_count plain_tables
                                [u "free text"; u "Budget: 3"]))) H).
Defined.

(** ** ASCII documents and the Unicode tables *)

Lemma ascii_odd_space_free c : is_ascii c = true -> odd_space_free c.
Proof.
  unfold is_ascii, odd_space_free, NBSP, FIGURE_SPACE, THIN_SPACE, HAIR_SPACE.
  intros H. apply N.ltb_lt in H. lia.
Qed.

Lemma ascii_split_on sep s : ascii_text s -> Forall ascii_text (split_on sep s).
Proof.
  induction 1 as [|c s Hc Hs IH]; simpl.
  - repeat constructor.
  - destruct (c =? sep); [constructor; [constructor | exact IH]|].
    destruct (split_on sep s) as [|f fs]; [repeat constructor; exact Hc|].
    inversion IH; subst. constructor; [now constructor | assumption].
Qed.

Lemma ascii_document_lines text :
  ascii_text text -> Forall ascii_text (document_lines text).
Proof.
  intros H. unfold document_lines. apply Forall_map.
  apply Forall_forall. intros l Hl. apply filter_In in Hl. destruct Hl as [Hl _].
  apply Forall_strip.
  pose proof (ascii_split_on NEWLINE text H) as Hs.
  rewrite Forall_forall in Hs. now apply Hs.
Qed.

Section AsciiOnly.

Variables U V : unicode_tables.

Lemma ascii_ordered s : ascii_text s -> ordered U s.
Proof.
  induction 1 as [|c s Hc Hs IH]; simpl; [exact I|]. split; [|exact IH].
  destruct Hs as [|d s Hd Hs]; simpl; [exact I|].
  unfold out_of_order, ccc. now rewrite Hd.
Qed.

Lemma ascii_stable s : ascii_text s -> Forall (stable U) s.
Proof.
  intros H. eapply Forall_impl; [|exact H].
  intros c Hc. unfold stable, decomp. now rewrite Hc.
Qed.

Lemma normalize_ascii t :
  ascii_text t -> _normalize_text U (Some t) = strip (sub_ws false t).
Proof.
  intros H. simpl.
  rewrite (nfkd_fixed U t (ascii_stable t H) (ascii_ordered t H)).
  rewrite replace_spaces_fixed; [reflexivity|].
  eapply Forall_impl; [|exact H]. apply ascii_odd_space_free.
Qed.

Lemma normalize_ascii_text t :
  ascii_text t -> ascii_text (_normalize_text U (Some t)).
Proof.
  intros H. rewrite (normalize_ascii t H).
  apply Forall_strip, Forall_sub_ws; [reflexivity | exact H].
Qed.

Lemma ascii_isword_same c : is_ascii c = true -> isword U c = isword V c.
Proof. intros H. unfold isword. now rewrite H. Qed.

Lemma ascii_ci_eq_same k d :
  is_ascii k = true -> is_ascii d = true -> ci_eq U k d = ci_eq V k d.
Proof. intros Hk Hd. unfold ci_eq. now rewrite Hk, Hd. Qed.

Lemma at_boundary_ascii prev s :
  ascii_prev prev -> ascii_text s -> at_boundary U prev s = at_boundary V prev s.
Proof.
  intros Hp Hs. unfold at_boundary. f_equal.
  - destruct prev; simpl in *; [now apply ascii_isword_same | reflexivity].
  - destruct Hs; simpl; [reflexivity | now apply ascii_isword_same].
Qed.

Lemma match_here_ascii pat :
  ascii_pattern pat ->
  forall prev s, ascii_prev prev -> ascii_text s ->
    match_here U pat prev s = match_here V pat prev s.
Proof.
  induction 1 as [|i pat Hi Hpat IH]; intros prev s Hp Hs; [reflexivity|].
  destruct i as [|k]; simpl.
  - rewrite at_boundary_ascii by assumption. f_equal. now apply IH.
  - destruct Hs as [|d s Hd Hs]; [reflexivity|].
    rewrite ascii_ci_eq_same by assumption. f_equal. now apply IH.
Qed.

Lemma search_from_ascii pat s :
  ascii_pattern pat -> ascii_text s ->
  forall prev, ascii_prev prev ->
    search_from U pat prev s = search_from V pat prev s.
Proof.
  intros Hpat. induction 1 as [|d s Hd Hs IH]; intros prev Hp; simpl.
  - f_equal. apply match_here_ascii; trivial. constructor.
  - f_equal; [apply match_here_ascii; trivial; now constructor|].
    now apply IH.
Qed.

Lemma lower_ascii_same l : ascii_text l -> lower U l = lower V l.
Proof. intros H. unfold lower. now rewrite !lower_ascii. Qed.

Lemma continuation_ascii following : forall desc,
  Forall ascii_text following ->
  continuation U desc following = continuation V desc following.
Proof.
  induction following as [|l following IH]; intros desc H; [reflexivity|].
  inversion H; subst. cbn [continuation].
  rewrite (lower_ascii_same l) by assumption.
  destruct (any_in stop_words (lower V l)); [reflexivity|]. now apply IH.
Qed.

Lemma s1_step_ascii line following st :
  ascii_text line -> Forall ascii_text following ->
  s1_step U line following st = s1_step V line following st.
Proof.
  intros Hl Hf. unfold s1_step.
  rewrite (lower_ascii_same line Hl), (continuation_ascii following _ Hf).
  reflexivity.
Qed.

Lemma s1_loop_ascii lines : forall st,
  Forall ascii_text lines -> s1_loop U lines st = s1_loop V lines st.
Proof.
  induction lines as [|l lines IH]; intros st H; [reflexivity|].
  inversion H; subst. simpl.
  rewrite s1_step_ascii by assumption. now apply IH.
Qed.

Lemma strategy2_ascii lines :
  Forall ascii_text lines -> strategy2 U lines = strategy2 V lines.
Proof.
  intros H. unfold strategy2.
  assert (E : after_header U lines = after_header V lines).
  { induction H as [|l lines Hl Hls IH]; [reflexivity|].
    simpl. unfold is_header. rewrite (lower_ascii_same l Hl), IH. reflexivity. }
  now rewrite E.
Qed.

End AsciiOnly.

(** X23. For keywords and text made of ASCII characters the Unicode
    tables play no part: any two tables give the same list of found
    keywords, and normalising is just collapsing whitespace and
    trimming. *)
Theorem find_keywords_ascii :
  forall U V keywords text,
    Forall ascii_text keywords -> ascii_text text ->
    find_keywords_in_text U keywords (Some text)
    = find_keywords_in_text V keywords (Some text)
    /\ _normalize_text U (Some text) = strip (sub_ws false text).
Proof.
  intros U V keywords text Hk Ht.
  split; [|now apply normalize_ascii].
  rewrite !find_keywords_unfold. f_equal.
  apply filter_ext_in. intros k Hin. unfold keyword_matches, search.
  rewrite (normalize_ascii U text Ht), <- (normalize_ascii V text Ht).
  apply search_from_ascii; [| now apply normalize_ascii_text | exact I].
  apply compile_keyword_ascii. rewrite Forall_forall in Hk. now apply Hk.
Qed.

Lemma find_keywords_ascii_witness :
  ascii_text (u "Dairy  and cattle")
  /\ find_keywords_in_text sample_tables [u "dairy"; u "cattle"]
       (Some (u "Dairy  and cattle"))
     = find_keywords_in_text plain_tables [u "dairy"; u "cattle"]
         (Some (u "Dairy  and cattle")).
Proof.
  assert (Ht : ascii_text (u "Dairy  and cattle")) by (repeat constructor).
  split; [exact Ht|].
  refine (proj1 (find_keywords_ascii sample_tables plain_tables
                   [u "dairy"; u "cattle"] (u "Dairy  and cattle") _ Ht)).
  repeat constructor.
Defined.

(** X24. For a text made of ASCII characters the extractor's result does
    not depend on the Unicode tables either: records and printed lines are
    the same under any two tables. *)
Theorem parse_ascii :
  forall U V pdf_text pdf_filename,
    ascii_text pdf_text ->
    parse_pdf_to_dataframe U pdf_text pdf_filename
    = parse_pdf_to_dataframe V pdf_text pdf_filename.
Proof.
  intros U V pdf_text pdf_filename H.
  pose proof (ascii_document_lines pdf_text H) as Hl.
  unfold parse_pdf_to_dataframe, strategy1.
  now rewrite (s1_loop_ascii U V _ _ Hl), (strategy2_ascii U V _ Hl).
Qed.

Lemma parse_ascii_witness :
  ascii_text (u "Project: A
Description: d")
  /\ parse_pdf_to_dataframe sample_tables (u "Project: A
Description: d") (u "a.pdf")
     = parse_pdf_to_dataframe plain_tables (u "Project: A
Description: d") (u "a.pdf").
Proof.
  assert (H : ascii_text (u "Project: A
Description: d")) by (repeat constructor).
  split; [exact H|].
  exact (parse_ascii sample_tables plain_tables _ (u "a.pdf") H).
Defined.

(** ** Whole words *)








(** ** Strict thresholds *)

(** C8. Strategy 3's thresholds are strict.  Only lines longer than 50
    characters join a chunk: a line of at most 50 characters, so also one
    of exactly 50, joins none and separates the chunks before it from
    those after it, and every kept chunk is a run of consecutive lines
    each longer than 50 characters.  A run of such lines is kept as one
    chunk exactly when its space-joined length is greater than 100, so a
    joined length of exactly 100 is dropped.  The records are made from
    the first 10 kept chunks, never more. *)
Theorem chunking_thresholds_strict :
  forall lines,
    (length (strategy3 lines) <= 10)%nat
    /\ map Project_Description (strategy3 lines)
       = map Some (firstn 10 (content_chunks lines))
    /\ (forall l1 line l2,
           length line = 50%nat ->
           ~ substantial line
           /\ content_chunks (l1 ++ line :: l2)
              = content_chunks l1 ++ content_chunks l2)
    /\ (forall l1 line l2,
           (length line <= 50)%nat ->
           ~ substantial line
           /\ content_chunks (l1 ++ line :: l2)
              = content_chunks l1 ++ content_chunks l2)
    /\ Forall (chunk_of lines) (content_chunks lines)
    /\ (forall run,
           run <> [] -> Forall substantial run ->
           content_chunks run
           = if (100 <? length (join [SPACE] run))%nat
             then [join [SPACE] run] else [])
    /\ (forall run,
           Forall substantial run -> length (join [SPACE] run) = 100%nat ->
           content_chunks run = [])
    /\ content_chunks [repeat 120 50] = []
    /\ content_chunks [repeat 120 30; repeat 120 30; repeat 120 30; repeat 120 30]
       = []
    /\ content_chunks [repeat 120 51; repeat 121 51]
       = [repeat 120 51 ++ [SPACE] ++ repeat 121 51]
    /\ content_chunks [repeat 120 100] = []
    /\ content_chunks [repeat 120 101] = [repeat 120 101]
    /\ length (strategy3 (repeat (repeat 120 101) 12 ++ [[]])) = 1%nat
    /\ length (strategy3
                 (flat_map (fun l => [l; []]) (repeat (repeat 120 101) 12)))
       = 10%nat.
Proof.
  intros lines.
  split; [apply strategy3_length|].
  split; [apply strategy3_descriptions|].
  split.
  { intros l1 line l2 H. split.
    - unfold substantial. lia.
    - apply content_chunks_split. lia. }
  split.
  { intros l1 line l2 H. split.
    - unfold substantial. lia.
    - now apply content_chunks_split. }
  split; [apply content_chunks_of|].
  split; [apply content_chunks_run|].
  split.
  { intros run H Hlen. destruct run as [|l run]; [reflexivity|].
    rewrite content_chunks_run by (trivial; discriminate).
    now rewrite Hlen. }
  repeat split; vm_compute; reflexivity.
Qed.

Lemma chunking_thresholds_strict_witness :
  (length (repeat 120 30) <= 50)%nat
  /\ content_chunks ([repeat 120 101] ++ repeat 120 30 :: [repeat 121 101])
     = content_chunks [repeat 120 101] ++ content_chunks [repeat 121 101]
  /\ length (repeat 120 50) = 50%nat
  /\ content_chunks ([repeat 120 101] ++ repeat 120 50 :: [repeat 121 101])
     = content_chunks [repeat 120 101] ++ content_chunks [repeat 121 101].
Proof.
  assert (H30 : (length (repeat 120 30) <= 50)%nat) by (vm_compute; lia).
  split; [exact H30|]. split.
  - exact (proj2 (proj1 (proj2 (proj2 (proj2 (chunking_thresholds_strict []))))
                    [repeat 120 101] (repeat 120 30) [repeat 121 101] H30)).
  - split; [reflexivity|].
    exact (proj2 (proj1 (proj2 (proj2 (chunking_thresholds_strict [])))
                    [repeat 120 101] (repeat 120 50) [repeat 121 101] eq_refl)).
Defined.
